(** * SmartScope diagnostic tools: a shallow embedding

    The three analysis scripts of [scripts/tools] are embedded here:

    - [camera_diagnosis.py]            (module [CameraDiagnosis])
    - [depth_calibration_diagnosis.py] (module [DepthCalibrationDiagnosis])
    - [depth_analysis.py]              (module [DepthAnalysis])

    Conventions of the embedding.

    - Pixel rectangles returned by OpenCV are tuples of Python integers and
      are modelled over [Z].
    - numpy floating-point values are modelled by exact rationals [Q]; the
      rounding of IEEE arithmetic is abstracted away, and equalities between
      computed values are stated with [==].  A division whose divisor is zero
      does not raise in numpy: it yields [nan] or [inf]; the type [npfloat]
      keeps that outcome visible.
    - [print] is modelled by a log of structured lines, in program order.
    - Python exceptions are modelled by the constructor [Raise] of [result].
    - Library routines whose values no property below depends on (the square
      root, [cv.RQDecomp3x3], [cv.stereoRectify], [cv2.Sobel], [float]) are
      Section variables.
    - [camera_diagnosis.py] does not compile as it stands: the [except] of
      its loader is indented deeper than the statement before it.  The
      module [CameraDiagnosis] holds the functions as they are written and
      the block structure of the file as the compiler reads it. *)

From Stdlib Require Import ZArith QArith Qround Qabs Qminmax Lqa Lia.
From Stdlib Require Import Ascii String.
From stdpp Require Import gmap strings list.

Local Open Scope Q_scope.

(** ** Python and numpy primitives *)

Inductive exn : Type :=
| IndexError
| ValueError
| TypeError
| LinAlgError
| CvError.

Inductive result (A : Type) : Type :=
| Ok (a : A)
| Raise (e : exn).
Arguments Ok {A} a.
Arguments Raise {A} e.

(** Sequencing: an exception raised by a statement aborts the rest. *)
#[export] Instance result_bind : MBind result :=
  fun A B (k : A -> result B) (r : result A) =>
    match r with
    | Ok a => k a
    | Raise e => Raise e
    end.

#[export] Instance result_ret : MRet result := fun A a => Ok a.

(** Comparison operators on floats, as booleans. *)
Definition Qltb (a b : Q) : bool :=
  match a ?= b with Lt => true | _ => false end.

Definition Qgtb (a b : Q) : bool := Qltb b a.

(** Python's [max(a, b)] keeps [a] unless [b > a]. *)
Definition py_max (a b : Q) : Q := if Qgtb b a then b else a.

(** A numpy array of rank 2 is a list of rows. *)
Definition Matrix : Type := list (list Q).

(** [m[i, j]]: numpy raises [IndexError] outside the array. *)
Definition mat_get (m : Matrix) (i j : nat) : result Q :=
  match m !! i with
  | Some row => match row !! j with
                | Some v => Ok v
                | None => Raise IndexError
                end
  | None => Raise IndexError
  end.

Definition Qsum (l : list Q) : Q := foldr Qplus 0 l.

Definition Qsquare (x : Q) : Q := x * x.

(** An integer square root, exact on perfect squares; it instantiates
    [np.sqrt] where the model is run on concrete inputs. *)
Definition isqrt (q : Q) : Q := inject_Z (Z.sqrt (Qfloor q)).

(** The entry [m[i][j]] where it exists. *)
Definition entry (m : Matrix) (i j : nat) : Q :=
  default 0 (row ← m !! i; row !! j).

Definition is_3x3 (m : Matrix) : bool :=
  match m with
  | [[_; _; _]; [_; _; _]; [_; _; _]] => true
  | _ => false
  end.

(** *** numpy floats

    A numpy float is a finite value, an infinity or [nan].  Signed zeros are
    not distinguished: [x / 0] is [+inf] for [x > 0] and [-inf] for
    [x < 0]. *)
Inductive npfloat : Type :=
| Fin (q : Q)
| Inf (negative : bool)
| NaN.

Definition is_finite (a : npfloat) : bool :=
  match a with Fin _ => true | _ => false end.

Definition np_add (a b : npfloat) : npfloat :=
  match a, b with
  | Fin x, Fin y => Fin (x + y)
  | NaN, _ => NaN
  | _, NaN => NaN
  | Inf s, Fin _ => Inf s
  | Fin _, Inf s => Inf s
  | Inf s, Inf t => if Bool.eqb s t then Inf s else NaN
  end.

Definition np_opp (a : npfloat) : npfloat :=
  match a with
  | Fin x => Fin (- x)
  | Inf s => Inf (negb s)
  | NaN => NaN
  end.

Definition np_sub (a b : npfloat) : npfloat := np_add a (np_opp b).

Definition np_mul (a b : npfloat) : npfloat :=
  match a, b with
  | Fin x, Fin y => Fin (x * y)
  | NaN, _ => NaN
  | _, NaN => NaN
  | Inf s, Fin y => if Qeq_bool y 0 then NaN else Inf (xorb s (Qltb y 0))
  | Fin x, Inf s => if Qeq_bool x 0 then NaN else Inf (xorb s (Qltb x 0))
  | Inf s, Inf t => Inf (xorb s t)
  end.

(** numpy's true division: a zero divisor gives [nan] or an infinity (and a
    [RuntimeWarning]), never an exception. *)
Definition np_div (a b : npfloat) : npfloat :=
  match a, b with
  | Fin x, Fin y =>
      if Qeq_bool y 0
      then (if Qeq_bool x 0 then NaN else Inf (Qltb x 0))
      else Fin (x / y)
  | NaN, _ => NaN
  | _, NaN => NaN
  | Fin _, Inf _ => Fin 0
  | Inf s, Fin y => Inf (xorb s (Qltb y 0))
  | Inf _, Inf _ => NaN
  end.

Definition np_abs (a : npfloat) : npfloat :=
  match a with
  | Fin x => Fin (Qabs x)
  | Inf _ => Inf false
  | NaN => NaN
  end.

(** [a > b]; every comparison with [nan] is false. *)
Definition np_gtb (a b : npfloat) : bool :=
  match a, b with
  | Fin x, Fin y => Qgtb x y
  | NaN, _ => false
  | _, NaN => false
  | Inf s, Inf t => negb s && t
  | Inf s, Fin _ => negb s
  | Fin _, Inf t => t
  end.

Definition np_ltb (a b : npfloat) : bool := np_gtb b a.

(** Python's [max(a, b)] on floats. *)
Definition py_max_f (a b : npfloat) : npfloat := if np_gtb b a then b else a.

(** [np.minimum] and [np.maximum] of two values: [nan] wins. *)
Definition np_minimum (a b : npfloat) : npfloat :=
  match a, b with
  | NaN, _ => NaN
  | _, NaN => NaN
  | _, _ => if np_ltb b a then b else a
  end.

Definition np_maximum (a b : npfloat) : npfloat :=
  match a, b with
  | NaN, _ => NaN
  | _, NaN => NaN
  | _, _ => if np_gtb b a then b else a
  end.

(** [np.min] and [np.max] of a one-dimensional array; numpy raises
    [ValueError] on an empty array. *)
Definition np_min (l : list npfloat) : result npfloat :=
  match l with
  | [] => Raise ValueError
  | x :: t => Ok (foldl np_minimum x t)
  end.

Definition np_max (l : list npfloat) : result npfloat :=
  match l with
  | [] => Raise ValueError
  | x :: t => Ok (foldl np_maximum x t)
  end.

Definition np_sum (l : list npfloat) : npfloat := foldr np_add (Fin 0) l.

Definition of_nat (n : nat) : npfloat := Fin (inject_Z (Z.of_nat n)).

(** [np.mean]: the sum over the number of elements ([nan] when empty). *)
Definition np_mean (l : list npfloat) : npfloat :=
  np_div (np_sum l) (of_nat (length l)).

(** [np.sum(mask)]: the number of true entries. *)
Definition count_true (mask : list bool) : nat :=
  length (filter (fun b : bool => b = true) mask).

(** [a[mask]]: the entries of the flattened array where the mask holds, in
    row-major order. *)
Fixpoint select {A : Type} (mask : list bool) (a : list A) : list A :=
  match mask, a with
  | b :: mask', x :: a' =>
      if b then x :: select mask' a' else select mask' a'
  | _, _ => []
  end.

(** [np.argmax] of a non-empty array of counts: the first index holding the
    maximum.  The scan keeps the current best index and value and moves only
    on a strictly larger value. *)
Fixpoint argmax_scan (l : list nat) (i best_i best : nat) : nat :=
  match l with
  | [] => best_i
  | x :: t =>
      if (best <? x)%nat then argmax_scan t (S i) i x
      else argmax_scan t (S i) best_i best
  end.

Definition np_argmax (l : list nat) : result nat :=
  match l with
  | [] => Raise ValueError
  | x :: t => Ok (argmax_scan t 1 0 x)
  end.

(** The exact mean and population variance of a one-dimensional array:
    what [np.mean] and the radicand of [np.std] evaluate to on finite
    values. *)
Definition Qmean (l : list Q) : Q := Qsum l / inject_Z (Z.of_nat (length l)).

Definition Qvar (l : list Q) : Q :=
  Qmean (map (fun x => Qabs (x - Qmean l) * Qabs (x - Qmean l)) l).

(** ** camera_diagnosis.py *)

Module CameraDiagnosis.

(** The six values returned by [load_camera_parameters()]. *)
Record CameraParams : Type := mkCameraParams {
  cmtx_left : Matrix;
  dist_left : Matrix;
  cmtx_right : Matrix;
  dist_right : Matrix;
  rotation : Matrix;
  translation : list Q
}.

(** An OpenCV [Rect] as the Python binding returns it: [(x, y, w, h)]. *)
Record Rect : Type := mkRect { rx : Z; ry : Z; rw : Z; rh : Z }.

(** What the body of the loop of [analyze_roi_consistency] prints after the
    two ROIs. *)
Inductive RoiVerdict : Type :=
| RoiConsistent
| RoiOverlap (x y w h : Z)
| RoiSuggestSize (w h : Z).

(** Lines 142-168: the consistency check on one pair of ROIs. *)
Definition roi_verdict (roi1 roi2 : Rect) : RoiVerdict :=
  if negb (rw roi1 =? rw roi2)%Z || negb (rh roi1 =? rh roi2)%Z then
    let left_x1 := rx roi1 in
    let left_y1 := ry roi1 in
    let left_x2 := (left_x1 + rw roi1)%Z in
    let left_y2 := (left_y1 + rh roi1)%Z in
    let right_x1 := rx roi2 in
    let right_y1 := ry roi2 in
    let right_x2 := (right_x1 + rw roi2)%Z in
    let right_y2 := (right_y1 + rh roi2)%Z in
    let overlap_x1 := Z.max left_x1 right_x1 in
    let overlap_y1 := Z.max left_y1 right_y1 in
    let overlap_x2 := Z.min left_x2 right_x2 in
    let overlap_y2 := Z.min left_y2 right_y2 in
    if (overlap_x1 <? overlap_x2)%Z && (overlap_y1 <? overlap_y2)%Z then
      let unified_width := (overlap_x2 - overlap_x1)%Z in
      let unified_height := (overlap_y2 - overlap_y1)%Z in
      RoiOverlap overlap_x1 overlap_y1 unified_width unified_height
    else
      let min_width := Z.min (rw roi1) (rw roi2) in
      let min_height := Z.min (rh roi1) (rh roi2) in
      RoiSuggestSize min_width min_height
  else RoiConsistent.

Definition test_sizes : list (Z * Z) :=
  [(1280, 720); (1920, 1080); (640, 480)]%Z.

(** One entry of the report per tested image size. *)
Record RoiEntry : Type := mkRoiEntry {
  entry_size : Z * Z;
  entry_roi1 : Rect;
  entry_roi2 : Rect;
  entry_verdict : RoiVerdict
}.

Inductive Advice : Type :=
| PrincipalPointDivergence
| FocalLengthDivergence
| BaselineAbnormal.

Record AlignmentReport : Type := mkAlignmentReport {
  principal_left : Q * Q;
  principal_right : Q * Q;
  delta_cx : Q;
  delta_cy : Q;
  focal_left : Q * Q;
  focal_right : Q * Q;
  delta_fx : Q;
  delta_fy : Q;
  baseline : Q;
  angles : Q * Q * Q;
  advice : list Advice
}.

(** *** The module as Python compiles it

    Python compiles a file as a whole before it runs any statement of it,
    and the compiler groups the logical lines into blocks by their
    indentation.  A logical line is described here by the number of its
    first physical line, the width of its indentation and whether it ends
    with a colon, that is, opens a block; blank lines and lines holding a
    comment only are no logical lines, and a statement continued inside
    brackets is one. *)
Record SourceLine : Type := mkSourceLine {
  line_number : nat;
  indentation : nat;
  opens_block : bool
}.

(** The logical lines of [camera_diagnosis.py]. *)
Definition module_lines : list SourceLine :=
  [
    mkSourceLine 2 0 false; mkSourceLine 7 0 false; mkSourceLine 8 0 false;
    mkSourceLine 9 0 false; mkSourceLine 10 0 false; mkSourceLine 12 0 true;
    mkSourceLine 13 4 false; mkSourceLine 14 4 true; mkSourceLine 16 8 false;
    mkSourceLine 17 8 true; mkSourceLine 18 12 false; mkSourceLine 19 12 false;
    mkSourceLine 21 8 true; mkSourceLine 22 12 false; mkSourceLine 25 8 false;
    mkSourceLine 26 8 false; mkSourceLine 27 8 false; mkSourceLine 28 8 false;
    mkSourceLine 30 8 true; mkSourceLine 31 12 true; mkSourceLine 32 16 false;
    mkSourceLine 33 16 false; mkSourceLine 34 16 false; mkSourceLine 35 12 true;
    mkSourceLine 36 16 false; mkSourceLine 37 16 false; mkSourceLine 38 16 false;
    mkSourceLine 40 12 true; mkSourceLine 41 16 false; mkSourceLine 42 12 true;
    mkSourceLine 43 16 false; mkSourceLine 45 8 false; mkSourceLine 46 8 false;
    mkSourceLine 49 8 false; mkSourceLine 50 8 true; mkSourceLine 51 12 false;
    mkSourceLine 52 12 false; mkSourceLine 54 8 true; mkSourceLine 55 12 false;
    mkSourceLine 58 8 false; mkSourceLine 59 8 false; mkSourceLine 60 8 false;
    mkSourceLine 61 8 false; mkSourceLine 63 8 true; mkSourceLine 64 12 true;
    mkSourceLine 65 16 false; mkSourceLine 66 16 false; mkSourceLine 67 16 false;
    mkSourceLine 68 12 true; mkSourceLine 69 16 false; mkSourceLine 70 16 false;
    mkSourceLine 71 16 false; mkSourceLine 73 12 true; mkSourceLine 74 16 false;
    mkSourceLine 75 12 true; mkSourceLine 76 16 false; mkSourceLine 78 8 false;
    mkSourceLine 79 8 false; mkSourceLine 82 8 false; mkSourceLine 83 8 true;
    mkSourceLine 84 12 false; mkSourceLine 85 12 false; mkSourceLine 87 8 true;
    mkSourceLine 88 12 false; mkSourceLine 91 8 false; mkSourceLine 92 8 true;
    mkSourceLine 93 12 false; mkSourceLine 94 8 false; mkSourceLine 97 8 false;
    mkSourceLine 98 8 true; mkSourceLine 99 12 false; mkSourceLine 100 8 false;
    mkSourceLine 102 8 false; mkSourceLine 104 12 true; mkSourceLine 105 8 false;
    mkSourceLine 106 8 false; mkSourceLine 108 0 true; mkSourceLine 109 4 false;
    mkSourceLine 110 4 false; mkSourceLine 113 4 false; mkSourceLine 114 4 true;
    mkSourceLine 115 8 false; mkSourceLine 117 4 false; mkSourceLine 119 4 false;
    mkSourceLine 120 4 false; mkSourceLine 121 4 false; mkSourceLine 122 4 false;
    mkSourceLine 123 4 false; mkSourceLine 124 4 false; mkSourceLine 127 4 false;
    mkSourceLine 129 4 true; mkSourceLine 130 8 false; mkSourceLine 133 8 false;
    mkSourceLine 138 8 false; mkSourceLine 139 8 false; mkSourceLine 142 8 true;
    mkSourceLine 143 12 false; mkSourceLine 144 12 false; mkSourceLine 145 12 false;
    mkSourceLine 148 12 false; mkSourceLine 149 12 false; mkSourceLine 151 12 false;
    mkSourceLine 152 12 false; mkSourceLine 154 12 false; mkSourceLine 155 12 false;
    mkSourceLine 156 12 false; mkSourceLine 157 12 false; mkSourceLine 159 12 true;
    mkSourceLine 160 16 false; mkSourceLine 161 16 false; mkSourceLine 162 16 false;
    mkSourceLine 163 12 true; mkSourceLine 164 16 false; mkSourceLine 165 16 false;
    mkSourceLine 166 16 false; mkSourceLine 167 8 true; mkSourceLine 168 12 false;
    mkSourceLine 170 4 false; mkSourceLine 172 0 true; mkSourceLine 173 4 false;
    mkSourceLine 174 4 false; mkSourceLine 176 4 false; mkSourceLine 177 4 true;
    mkSourceLine 178 8 false; mkSourceLine 180 4 false; mkSourceLine 183 4 false;
    mkSourceLine 184 4 false; mkSourceLine 185 4 false; mkSourceLine 186 4 false;
    mkSourceLine 188 4 false; mkSourceLine 189 4 false; mkSourceLine 190 4 false;
    mkSourceLine 193 4 false; mkSourceLine 194 4 false; mkSourceLine 195 4 false;
    mkSourceLine 196 4 false; mkSourceLine 198 4 false; mkSourceLine 199 4 false;
    mkSourceLine 200 4 false; mkSourceLine 203 4 false; mkSourceLine 204 4 false;
    mkSourceLine 208 4 false; mkSourceLine 209 4 false; mkSourceLine 212 4 false;
    mkSourceLine 213 4 true; mkSourceLine 214 8 false; mkSourceLine 215 4 true;
    mkSourceLine 216 8 false; mkSourceLine 217 4 true; mkSourceLine 218 8 false;
    mkSourceLine 220 4 false; mkSourceLine 222 0 true; mkSourceLine 223 4 false;
    mkSourceLine 224 4 false; mkSourceLine 226 4 false; mkSourceLine 227 4 false
  ].

Inductive Compilation : Type :=
| Compiled
| IndentationError (line : nat).

(** A line indented less than the one before it must return to a width
    that is still open; the deeper levels are closed. *)
Fixpoint dedent_to (width : nat) (levels : list nat) : option (list nat) :=
  match levels with
  | [] => None
  | top :: below =>
      if (width =? top)%nat then Some levels
      else if (top <? width)%nat then None
      else dedent_to width below
  end.

(** The block structure of a file.  [levels] is the stack of the open
    indentation widths, [header] the line that has just opened a block.  A
    line indented deeper than the innermost open level is legal only as the
    first line of a block ("unexpected indent" otherwise), and a block must
    start with a deeper line ("expected an indented block"). *)
Fixpoint compile_blocks (lines : list SourceLine) (levels : list nat)
    (header : option nat) : Compilation :=
  match lines with
  | [] =>
      match header with
      | Some n => IndentationError (S n)
      | None => Compiled
      end
  | l :: rest =>
      let next := if opens_block l then Some (line_number l) else None in
      if (hd O levels <? indentation l)%nat then
        match header with
        | Some _ => compile_blocks rest (indentation l :: levels) next
        | None => IndentationError (line_number l)
        end
      else
        match header with
        | Some _ => IndentationError (line_number l)
        | None =>
            match dedent_to (indentation l) levels with
            | Some levels' => compile_blocks rest levels' next
            | None => IndentationError (line_number l)
            end
        end
  end.

(** What a run of the script gives: the error of the compiler, raised
    before any statement has run and so before anything is printed, or the
    reports of the two functions called at lines 226 and 227. *)
Inductive Run : Type :=
| NotCompiled (line : nat)
| Ran (roi : list RoiEntry) (alignment : result (option AlignmentReport)).

Definition reported_rois (r : Run) : list RoiEntry :=
  match r with
  | Ran roi _ => roi
  | NotCompiled _ => []
  end.

Definition reported_alignment (r : Run) : option AlignmentReport :=
  match r with
  | Ran _ (Ok report) => report
  | _ => None
  end.

Section Tools.

(** [cv.stereoRectify(..., (width, height), R, T, alpha=-1.0)], of which the
    script keeps the two ROIs. *)
Variable stereoRectify : CameraParams -> Z * Z -> Rect * Rect.

(** [np.sqrt] and the Euler angles of [cv.RQDecomp3x3(R)[0]]. *)
Variable np_sqrt : Q -> Q.
Variable RQDecomp3x3 : Matrix -> result (Q * Q * Q).

(** [np.linalg.norm(T)] of a vector. *)
Definition linalg_norm (t : list Q) : Q := np_sqrt (Qsum (map Qsquare t)).

(** [analyze_roi_consistency]; [params] is what [load_camera_parameters()]
    returned, [None] when a parameter file is missing. *)
Definition analyze_roi_consistency (params : option CameraParams)
  : list RoiEntry :=
  match params with
  | None => []
  | Some p =>
      map (fun size =>
             let '(roi1, roi2) := stereoRectify p size in
             mkRoiEntry size roi1 roi2 (roi_verdict roi1 roi2))
          test_sizes
  end.

(** [check_camera_alignment]; the three [if] statements of lines 213-218
    each append their own warning. *)
Definition check_camera_alignment (params : option CameraParams)
  : result (option AlignmentReport) :=
  match params with
  | None => Ok None
  | Some p =>
      cx_left ← mat_get (cmtx_left p) 0 2;
      cy_left ← mat_get (cmtx_left p) 1 2;
      cx_right ← mat_get (cmtx_right p) 0 2;
      cy_right ← mat_get (cmtx_right p) 1 2;
      fx_left ← mat_get (cmtx_left p) 0 0;
      fy_left ← mat_get (cmtx_left p) 1 1;
      fx_right ← mat_get (cmtx_right p) 0 0;
      fy_right ← mat_get (cmtx_right p) 1 1;
      let baseline := linalg_norm (translation p) in
      angles ← RQDecomp3x3 (rotation p);
      let a1 :=
        if Qgtb (Qabs (cx_left - cx_right)) 50
           || Qgtb (Qabs (cy_left - cy_right)) 50
        then [PrincipalPointDivergence] else [] in
      let a2 :=
        if Qgtb (Qabs (fx_left - fx_right)) 20
           || Qgtb (Qabs (fy_left - fy_right)) 20
        then [FocalLengthDivergence] else [] in
      let a3 :=
        if Qltb baseline 10 || Qgtb baseline 200
        then [BaselineAbnormal] else [] in
      Ok (Some {| principal_left := (cx_left, cy_left);
                  principal_right := (cx_right, cy_right);
                  delta_cx := Qabs (cx_left - cx_right);
                  delta_cy := Qabs (cy_left - cy_right);
                  focal_left := (fx_left, fy_left);
                  focal_right := (fx_right, fy_right);
                  delta_fx := Qabs (fx_left - fx_right);
                  delta_fy := Qabs (fy_left - fy_right);
                  baseline := baseline;
                  angles := angles;
                  advice := a1 ++ a2 ++ a3 |})
  end.

(** The script: the file is compiled, then lines 226 and 227 call the two
    functions on what the loader returned. *)
Definition camera_diagnosis (params : option CameraParams) : Run :=
  match compile_blocks module_lines [O] None with
  | IndentationError line => NotCompiled line
  | Compiled =>
      Ran (analyze_roi_consistency params) (check_camera_alignment params)
  end.

End Tools.

(** A rig on which the model is run. *)
Definition rig_example : CameraParams :=
  {| cmtx_left := [[1000; 0; 640]; [0; 1000; 360]; [0; 0; 1]];
     dist_left := [[0; 0; 0; 0; 0]];
     cmtx_right := [[1050; 0; 700]; [0; 1010; 365]; [0; 0; 1]];
     dist_right := [[0; 0; 0; 0; 0]];
     rotation := [[1; 0; 0]; [0; 1; 0]; [0; 0; 1]];
     translation := [120; 0; 0] |}.

(** A rectification whose two ROIs differ in width and overlap. *)
Definition rectify_example (p : CameraParams) (size : Z * Z) : Rect * Rect :=
  (mkRect 10 20 600 400, mkRect 30 10 620 400).

(** The logical lines with the [except] of line 104 moved to the column of
    its [try]. *)
Definition module_lines_aligned : list SourceLine :=
  map (fun l => if (line_number l =? 104)%nat
                then mkSourceLine 104 4 true else l)
      module_lines.

End CameraDiagnosis.

(** ** depth_calibration_diagnosis.py *)

Module DepthCalibrationDiagnosis.

(** A depth map is a two-dimensional array of millimetres; a sample is valid
    when it is positive. *)
Definition DepthMap : Type := Matrix.

Definition shape (m : DepthMap) : nat * nat :=
  (length m, match m with [] => O | row :: _ => length row end).

Definition valid (d : Q) : bool := Qgtb d 0.

(** *** np.histogram with equal-width bins *)

Definition Qlist_min (x : Q) (l : list Q) : Q :=
  foldl (fun m y => if Qltb y m then y else m) x l.

Definition Qlist_max (x : Q) (l : list Q) : Q :=
  foldl (fun m y => if Qltb m y then y else m) x l.

(** The outer edges: the data range, widened by one half on each side when
    all samples are equal, and (0, 1) for an empty array. *)
Definition histogram_range (a : list Q) : Q * Q :=
  match a with
  | [] => (0, 1)
  | x :: t =>
      let first_edge := Qlist_min x t in
      let last_edge := Qlist_max x t in
      if Qeq_bool first_edge last_edge
      then (first_edge - (1 # 2), last_edge + (1 # 2))
      else (first_edge, last_edge)
  end.

(** [np.linspace(start, stop, div + 1)]. *)
Definition linspace (start stop : Q) (div : nat) : list Q :=
  let step := (stop - start) / inject_Z (Z.of_nat div) in
  map (fun i : nat => start + inject_Z (Z.of_nat i) * step) (seq 0 div)
  ++ [stop].

(** The bin of one sample: the scaled offset truncated to an integer, the
    right edge falling into the last bin, then numpy's two corrections
    against the computed edges. *)
Definition bin_index (first_edge last_edge : Q) (n_bins : nat)
    (bin_edges : list Q) (a : Q) : nat :=
  let norm := inject_Z (Z.of_nat n_bins) / (last_edge - first_edge) in
  let f_index := (a - first_edge) * norm in
  let i0 := Z.to_nat (Qfloor f_index) in
  let i1 := if (i0 =? n_bins)%nat then (i0 - 1)%nat else i0 in
  let i2 := if Qltb a (default 0 (bin_edges !! i1)) then (i1 - 1)%nat else i1 in
  if Qle_bool (default 0 (bin_edges !! (S i2))) a
     && negb (i2 =? n_bins - 1)%nat
  then S i2 else i2.

(** [np.histogram(a, bins=n_bins)]: the counts per bin and the edges. *)
Definition np_histogram (a : list Q) (n_bins : nat) : list nat * list Q :=
  let '(first_edge, last_edge) := histogram_range a in
  let bin_edges := linspace first_edge last_edge n_bins in
  let indices := map (bin_index first_edge last_edge n_bins bin_edges) a in
  let hist :=
    map (fun b : nat => length (filter (fun i : nat => i = b) indices))
        (seq 0 n_bins) in
  (hist, bin_edges).

(** [a[i]] on a one-dimensional array. *)
Definition index {A : Type} (a : list A) (i : nat) : result A :=
  match a !! i with
  | Some v => Ok v
  | None => Raise IndexError
  end.

(** *** cv2.resize, default interpolation

    [cv2.resize(src, (width, height))] interpolates bilinearly
    ([INTER_LINEAR]).  Along one axis the destination index [d] is mapped to
    the source coordinate [(d + 1/2) * ssize / dsize - 1/2]; its floor [s]
    and fraction [w] give the two taps [s] and [s + 1] with weights [1 - w]
    and [w]; a coordinate left of the first sample or right of the last one
    is clamped to that sample with weight one. *)
Definition linear_taps (ssize dsize d : nat) : list (nat * Q) :=
  let scale := inject_Z (Z.of_nat ssize) / inject_Z (Z.of_nat dsize) in
  let f := (inject_Z (Z.of_nat d) + (1 # 2)) * scale - (1 # 2) in
  let s := Qfloor f in
  let w := f - inject_Z s in
  if (s <? 0)%Z then [(O, 1)]
  else if (Z.of_nat ssize - 1 <=? s)%Z then [((ssize - 1)%nat, 1)]
  else [(Z.to_nat s, 1 - w); (S (Z.to_nat s), w)].

(** The source samples read for one destination pixel, with their weights. *)
Definition pixel_taps (src : Matrix) (dsize : nat * nat) (dy dx : nat)
  : list (nat * nat * Q) :=
  let '(rows, cols) := shape src in
  let '(dwidth, dheight) := dsize in
  flat_map (fun '(sy, wy) =>
              map (fun '(sx, wx) => (sy, sx, wy * wx))
                  (linear_taps cols dwidth dx))
           (linear_taps rows dheight dy).

Definition resize_pixel (src : Matrix) (dsize : nat * nat) (dy dx : nat) : Q :=
  Qsum (map (fun '(sy, sx, w) => w * entry src sy sx)
            (pixel_taps src dsize dy dx)).

(** OpenCV rejects an empty source and an empty destination size. *)
Definition cv2_resize (src : Matrix) (dsize : nat * nat) : result Matrix :=
  let '(rows, cols) := shape src in
  let '(dwidth, dheight) := dsize in
  if (rows =? 0)%nat || (cols =? 0)%nat
     || (dwidth =? 0)%nat || (dheight =? 0)%nat
  then Raise CvError
  else Ok (map (fun dy => map (fun dx => resize_pixel src dsize dy dx)
                              (seq 0 dwidth))
               (seq 0 dheight)).

(** The sentinel survives a resize when no destination pixel that reads
    an invalid source sample, with a positive weight, comes out positive. *)
Definition sentinel_preserved (src : Matrix) (dsize : nat * nat) : Prop :=
  forall (dy dx sy sx : nat) (w : Q),
    (dy < snd dsize)%nat -> (dx < fst dsize)%nat ->
    In (sy, sx, w) (pixel_taps src dsize dy dx) ->
    0 < w ->
    entry src sy sx <= 0 ->
    resize_pixel src dsize dy dx <= 0.

(** *** np.polyfit of degree one

    [np.polyfit(x, y, 1)] solves the least-squares problem by [lstsq] on the
    column-scaled Vandermonde matrix.  When the samples of [x] are not all
    equal the solution is the ordinary least-squares line.  When they are
    all equal (in particular with a single sample) the matrix has rank one,
    numpy warns ([RankWarning]) and returns the minimum-norm solution of the
    scaled system, which is [mean(y) / (2 * mean(x))] for the slope and
    [mean(y) / 2] for the intercept.  It raises [TypeError] on an empty [x]
    or on lengths that differ. *)
Definition polyfit1 (x y : list Q) : result (Q * Q) :=
  if (length x =? 0)%nat then Raise TypeError
  else if negb (length x =? length y)%nat then Raise TypeError
  else
    let n := inject_Z (Z.of_nat (length x)) in
    let sx := Qsum x in
    let sy := Qsum y in
    let sxx := Qsum (map Qsquare x) in
    let sxy := Qsum (zip_with Qmult x y) in
    let d := n * sxx - sx * sx in
    if Qeq_bool d 0 then
      if Qeq_bool sx 0 then Raise LinAlgError
      else Ok (sy / (2 * sx), sy / (2 * n))
    else
      let slope := (n * sxy - sx * sy) / d in
      Ok (slope, (sy - slope * sx) / n).

(** *** The jointly valid samples

    The local variables [both_valid], [mono_valid_depths],
    [stereo_valid_depths] and [depth_ratios] of [compare_depth_maps] (the
    first three also of [analyze_calibration_quality]), on two maps of the
    same shape. *)
Definition both_valid (mono_depth stereo_depth : DepthMap) : list bool :=
  let mono_valid := map valid (concat mono_depth) in
  let stereo_valid := map valid (concat stereo_depth) in
  zip_with andb mono_valid stereo_valid.

Definition mono_valid_depths (mono_depth stereo_depth : DepthMap) : list Q :=
  select (both_valid mono_depth stereo_depth) (concat mono_depth).

Definition stereo_valid_depths (mono_depth stereo_depth : DepthMap) : list Q :=
  select (both_valid mono_depth stereo_depth) (concat stereo_depth).

Definition depth_ratios (mono_depth stereo_depth : DepthMap) : list npfloat :=
  zip_with np_div (map Fin (stereo_valid_depths mono_depth stereo_depth))
                  (map Fin (mono_valid_depths mono_depth stereo_depth)).

(** The differences are taken as floating-point arrays give them; on
    arrays of unsigned integers numpy's subtraction wraps around, which is
    not modelled. *)
Definition depth_diffs (mono_depth stereo_depth : DepthMap) : list npfloat :=
  zip_with np_sub (map Fin (stereo_valid_depths mono_depth stereo_depth))
                  (map Fin (mono_valid_depths mono_depth stereo_depth)).

(** *** Masks of different shapes

    numpy combines two arrays of different shapes by broadcasting: in each
    dimension the sizes must agree or one of them must be 1, and the result
    takes the other size; an array is read at index 0 along a dimension in
    which its size is 1. *)
Definition broadcast_dim (a b : nat) : option nat :=
  if (a =? b)%nat then Some a
  else if (a =? 1)%nat then Some b
  else if (b =? 1)%nat then Some a
  else None.

Definition broadcast_entry (m : DepthMap) (i j : nat) : Q :=
  entry m (if (fst (shape m) =? 1)%nat then O else i)
          (if (snd (shape m) =? 1)%nat then O else j).

(** [(mono_depth > 0) & (stereo_depth > 0)] on the broadcast grid. *)
Definition broadcast_both_valid (mono_depth stereo_depth : DepthMap)
    (rows cols : nat) : list bool :=
  flat_map (fun i =>
              map (fun j => valid (broadcast_entry mono_depth i j)
                            && valid (broadcast_entry stereo_depth i j))
                  (seq 0 cols))
           (seq 0 rows).

(** *** Reports *)

Inductive QualityLine : Type :=
| QHeader
| QEmptyMap
| QShape (s : nat * nat)
| QValidPixels (valid_pixels total_pixels : nat) (valid_ratio : npfloat)
| QNoValidDepth
| QDepthRange (min_depth max_depth : npfloat)
| QMeanDepth (mean_depth : npfloat)
| QStdDepth (std_depth : npfloat)
| QPeakDepth (peak_depth : npfloat)
| QMeanGradient (mean_gradient : npfloat)
| QHighGradientRatio (high_gradient_ratio : npfloat).

(** The dictionary returned by [analyze_depth_quality]. *)
Record QualityStats : Type := mkQualityStats {
  valid_ratio : npfloat;
  min_depth : npfloat;
  max_depth : npfloat;
  mean_depth : npfloat;
  std_depth : npfloat;
  peak_depth : npfloat
}.

(** The dictionary returned by [compare_depth_maps]. *)
Record ComparisonStats : Type := mkComparisonStats {
  mean_ratio : npfloat;
  std_ratio : npfloat;
  mean_diff : npfloat;
  std_diff : npfloat;
  max_diff : npfloat;
  large_diff_ratio : npfloat
}.

(** The dictionary returned by [analyze_calibration_quality]. *)
Record CalibrationStats : Type := mkCalibrationStats {
  scale_factor : npfloat;
  bias : npfloat;
  rms_error : npfloat;
  max_error : npfloat
}.

Inductive CompareLine : Type :=
| CHeader
| CEmptyMap
| CShapeMismatch (mono_shape stereo_shape : nat * nat)
| CValidPixels (valid_pixels : nat)
| CNoCommonValid
| CRatio (mean_ratio std_ratio min_ratio max_ratio : npfloat)
| CDiff (mean_diff std_diff max_diff : npfloat)
| CLargeDiff (large_diff_ratio : npfloat).

Inductive CalibrationLine : Type :=
| AHeader
| ANoValidPixels
| ALinearFit (scale_factor bias rms_error max_error : npfloat)
| AErrorRange (min_residual max_residual : npfloat).

(** The outcome of one rule of [suggest_calibration_parameters].  A rule
    that fires prints two lines, its advice and the value it suggests: they
    are one outcome here, carrying the value.  A rule that does not fire
    prints its no-action line.  The heading the function prints first
    (line 214) is not an outcome. *)
Inductive Suggestion : Type :=
| LowerRansacThreshold (suggested_threshold : npfloat)
| RansacThresholdFine
| EnableOutlierDetection (outlier_threshold : Q)
| OutlierDetectionNotNeeded
| EnableLayeredCalibration (depth_layers : nat)
| LinearCalibrationEnough.

Section Tools.

Variable np_sqrt : Q -> Q.

(** [cv2.Sobel(depth_map, cv2.CV_32F, dx, dy, ksize=3)]; the result has the
    shape of its argument. *)
Variable Sobel : DepthMap -> nat -> nat -> Matrix.

Definition np_sqrt_f (a : npfloat) : npfloat :=
  match a with
  | Fin x => if Qltb x 0 then NaN else Fin (np_sqrt x)
  | Inf false => Inf false
  | _ => NaN
  end.

(** [np.std]: the root of the mean squared deviation from the mean. *)
Definition np_std (l : list npfloat) : npfloat :=
  let m := np_mean l in
  np_sqrt_f
    (np_mean (map (fun x => let d := np_abs (np_sub x m) in np_mul d d) l)).

(** [analyze_depth_quality(depth_map)]: the printed lines and the returned
    dictionary ([None] for the bare [return]). *)
Definition analyze_depth_quality (depth_map : option DepthMap)
  : result (list QualityLine * option QualityStats) :=
  match depth_map with
  | None => Ok ([QHeader; QEmptyMap], None)
  | Some dm =>
      let flat := concat dm in
      let valid_mask := map valid flat in
      let valid_pixels := count_true valid_mask in
      let total_pixels := length flat in
      let valid_ratio :=
        np_mul (np_div (of_nat valid_pixels) (of_nat total_pixels))
               (Fin 100) in
      let log1 := [QHeader; QShape (shape dm);
                   QValidPixels valid_pixels total_pixels valid_ratio] in
      if (valid_pixels =? 0)%nat then Ok (log1 ++ [QNoValidDepth], None)
      else
        let valid_depths := select valid_mask flat in
        min_depth ← np_min (map Fin valid_depths);
        max_depth ← np_max (map Fin valid_depths);
        let mean_depth := np_mean (map Fin valid_depths) in
        let std_depth := np_std (map Fin valid_depths) in
        let log2 := [QDepthRange min_depth max_depth;
                     QMeanDepth mean_depth; QStdDepth std_depth] in
        let '(hist, bins) := np_histogram valid_depths 50 in
        peak_idx ← np_argmax hist;
        left_edge ← index bins peak_idx;
        right_edge ← index bins (peak_idx + 1);
        let peak_depth := Fin ((left_edge + right_edge) / 2) in
        let log3 := [QPeakDepth peak_depth] in
        let log4 :=
          if (1 <? fst (shape dm))%nat && (1 <? snd (shape dm))%nat then
            let grad_x := concat (Sobel dm 1 0) in
            let grad_y := concat (Sobel dm 0 1) in
            let gradient_magnitude :=
              zip_with (fun gx gy => np_sqrt (gx * gx + gy * gy))
                       grad_x grad_y in
            let valid_gradients :=
              map Fin (select valid_mask gradient_magnitude) in
            let mean_gradient := np_mean valid_gradients in
            let high_gradient_ratio :=
              np_mul
                (np_div
                   (of_nat (count_true
                              (map (fun g =>
                                      np_gtb g (np_mul mean_gradient (Fin 2)))
                                   valid_gradients)))
                   (of_nat valid_pixels))
                (Fin 100) in
            [QMeanGradient mean_gradient;
             QHighGradientRatio high_gradient_ratio]
          else [] in
        Ok (log1 ++ log2 ++ log3 ++ log4,
            Some {| valid_ratio := valid_ratio;
                    min_depth := min_depth;
                    max_depth := max_depth;
                    mean_depth := mean_depth;
                    std_depth := std_depth;
                    peak_depth := peak_depth |})
  end.

(** [compare_depth_maps(mono_depth, stereo_depth)].  When the shapes
    differ the stereo map is resampled onto the shape of the mono map; the
    validity masks are taken afterwards, on the resampled map. *)
Definition compare_depth_maps (mono_depth stereo_depth : option DepthMap)
  : result (list CompareLine * option ComparisonStats) :=
  match mono_depth, stereo_depth with
  | Some mono, Some stereo0 =>
      '(log0, stereo) ←
        (if bool_decide (shape mono ≠ shape stereo0) then
           resized ← cv2_resize stereo0 (snd (shape mono), fst (shape mono));
           Ok ([CShapeMismatch (shape mono) (shape stereo0)], resized)
         else Ok ([], stereo0));
      let valid_pixels := count_true (both_valid mono stereo) in
      let log1 := [CHeader] ++ log0 ++ [CValidPixels valid_pixels] in
      if (valid_pixels =? 0)%nat then Ok (log1 ++ [CNoCommonValid], None)
      else
        let depth_ratios := depth_ratios mono stereo in
        let mean_ratio := np_mean depth_ratios in
        let std_ratio := np_std depth_ratios in
        min_ratio ← np_min depth_ratios;
        max_ratio ← np_max depth_ratios;
        let depth_diffs := depth_diffs mono stereo in
        let mean_diff := np_mean depth_diffs in
        let std_diff := np_std depth_diffs in
        max_diff ← np_max (map np_abs depth_diffs);
        let large_diff_ratio :=
          np_mul
            (np_div
               (of_nat (count_true
                          (map (fun d => np_gtb (np_abs d) (Fin 50))
                               depth_diffs)))
               (of_nat valid_pixels))
            (Fin 100) in
        Ok (log1 ++ [CRatio mean_ratio std_ratio min_ratio max_ratio;
                     CDiff mean_diff std_diff max_diff;
                     CLargeDiff large_diff_ratio],
            Some {| mean_ratio := mean_ratio;
                    std_ratio := std_ratio;
                    mean_diff := mean_diff;
                    std_diff := std_diff;
                    max_diff := max_diff;
                    large_diff_ratio := large_diff_ratio |})
  | _, _ => Ok ([CHeader; CEmptyMap], None)
  end.

(** [analyze_calibration_quality(mono_depth, stereo_depth,
    calibration_result)].  The masks are combined without resampling.  On
    maps of different shapes the combination raises [ValueError] when the
    shapes do not broadcast; when they do, the function returns at its guard
    if the broadcast mask holds no jointly valid sample, and otherwise the
    masked selection raises [IndexError], the mask having another shape than
    one of the maps.  The 20-bin histogram of the residuals is computed and
    dropped by the script; it is left out. *)
Definition analyze_calibration_quality (mono_depth stereo_depth : DepthMap)
    (calibration_result : option CalibrationStats)
  : result (list CalibrationLine * option CalibrationStats) :=
  match calibration_result with
  | Some r => Ok ([AHeader], Some r)
  | None =>
      if bool_decide (shape mono_depth ≠ shape stereo_depth)
      then
        match broadcast_dim (fst (shape mono_depth))
                            (fst (shape stereo_depth)),
              broadcast_dim (snd (shape mono_depth))
                            (snd (shape stereo_depth)) with
        | Some rows, Some cols =>
            if (count_true (broadcast_both_valid mono_depth stereo_depth
                                                 rows cols) =? 0)%nat
            then Ok ([AHeader; ANoValidPixels], None)
            else Raise IndexError
        | _, _ => Raise ValueError
        end
      else
        if (count_true (both_valid mono_depth stereo_depth) =? 0)%nat
        then Ok ([AHeader; ANoValidPixels], None)
        else
          let mono_valid_depths :=
            mono_valid_depths mono_depth stereo_depth in
          let stereo_valid_depths :=
            stereo_valid_depths mono_depth stereo_depth in
          coeffs ← polyfit1 mono_valid_depths stereo_valid_depths;
          let scale_factor := fst coeffs in
          let bias := snd coeffs in
          let predicted :=
            map (fun m => scale_factor * m + bias) mono_valid_depths in
          let residuals := zip_with Qminus stereo_valid_depths predicted in
          let rms_error :=
            np_sqrt_f (np_mean (map (fun r => Fin (r * r)) residuals)) in
          max_error ← np_max (map (fun r => Fin (Qabs r)) residuals);
          min_residual ← np_min (map Fin residuals);
          max_residual ← np_max (map Fin residuals);
          Ok ([AHeader;
               ALinearFit (Fin scale_factor) (Fin bias) rms_error max_error;
               AErrorRange min_residual max_residual],
              Some {| scale_factor := Fin scale_factor;
                      bias := Fin bias;
                      rms_error := rms_error;
                      max_error := max_error |})
  end.

(** [suggest_calibration_parameters(analysis_results)]: three rules, each
    looking at its own key of the dictionary; the result lists the outcomes
    of the rules in the order they are printed. *)
Definition suggest_calibration_parameters
    (analysis_results : gmap string npfloat) : list Suggestion :=
  let s1 :=
    match analysis_results !! "std_ratio" with
    | Some std_ratio =>
        if np_gtb std_ratio (Fin (2 # 10)) then
          let suggested_threshold :=
            py_max_f (Fin 5) (np_mul std_ratio (Fin 100)) in
          [LowerRansacThreshold suggested_threshold]
        else [RansacThresholdFine]
    | None => []
    end in
  let s2 :=
    match analysis_results !! "large_diff_ratio" with
    | Some large_diff_ratio =>
        if np_gtb large_diff_ratio (Fin 20)
        then [EnableOutlierDetection 2]
        else [OutlierDetectionNotNeeded]
    | None => []
    end in
  let s3 :=
    match analysis_results !! "rms_error" with
    | Some rms_error =>
        if np_gtb rms_error (Fin 20)
        then [EnableLayeredCalibration 5]
        else [LinearCalibrationEnough]
    | None => []
    end in
  s1 ++ s2 ++ s3.

Definition quality_dict (q : QualityStats) : gmap string npfloat :=
  {[ "valid_ratio" := valid_ratio q; "min_depth" := min_depth q;
     "max_depth" := max_depth q; "mean_depth" := mean_depth q;
     "std_depth" := std_depth q; "peak_depth" := peak_depth q ]}.

Definition comparison_dict (c : ComparisonStats) : gmap string npfloat :=
  {[ "mean_ratio" := mean_ratio c; "std_ratio" := std_ratio c;
     "mean_diff" := mean_diff c; "std_diff" := std_diff c;
     "max_diff" := max_diff c; "large_diff_ratio" := large_diff_ratio c ]}.

Definition calibration_dict (c : CalibrationStats) : gmap string npfloat :=
  {[ "scale_factor" := scale_factor c; "bias" := bias c;
     "rms_error" := rms_error c; "max_error" := max_error c ]}.

(** [d.update(other)] when [other] is not [None]. *)
Definition update {A : Type} (to_dict : A -> gmap string npfloat)
    (other : option A) (d : gmap string npfloat) : gmap string npfloat :=
  match other with
  | Some o => to_dict o ∪ d
  | None => d
  end.

(** [main()] after the two depth maps are loaded, up to the suggestions. *)
Definition main (mono_depth stereo_depth : option DepthMap)
  : result (list Suggestion) :=
  match mono_depth, stereo_depth with
  | Some mono, Some stereo =>
      mono_analysis ← analyze_depth_quality (Some mono);
      stereo_analysis ← analyze_depth_quality (Some stereo);
      comparison_analysis ← compare_depth_maps (Some mono) (Some stereo);
      calibration_analysis ← analyze_calibration_quality mono stereo None;
      let all_analysis :=
        update calibration_dict (snd calibration_analysis)
          (update comparison_dict (snd comparison_analysis)
             (update quality_dict (snd stereo_analysis)
                (update quality_dict (snd mono_analysis) ∅))) in
      Ok (suggest_calibration_parameters all_analysis)
  | _, _ => Ok []
  end.

End Tools.

(** The local variable [valid_depths] of [analyze_depth_quality]. *)
Definition valid_depths (depth_map : DepthMap) : list Q :=
  select (map valid (concat depth_map)) (concat depth_map).

(** The smallest and the largest element of an array, zero when empty. *)
Definition Qmin_of (l : list Q) : Q :=
  match l with [] => 0 | x :: t => Qlist_min x t end.

Definition Qmax_of (l : list Q) : Q :=
  match l with [] => 0 | x :: t => Qlist_max x t end.

(** The ratio map drawn by [visualize_depth_comparison] (lines 270-273): an
    array of zeros in which the jointly valid positions receive the ratio
    of stereo to mono.  Maps of different shapes draw none. *)
Definition ratio_map (mono_depth stereo_depth : DepthMap)
  : option (list (list npfloat)) :=
  if bool_decide (shape mono_depth = shape stereo_depth) then
    Some (zip_with
            (zip_with (fun m s =>
                         if valid m && valid s
                         then np_div (Fin s) (Fin m) else Fin 0))
            mono_depth stereo_depth)
  else None.

(** The outcome "no scale, bias or residual is reported". *)
Definition reports_no_fit
    (r : result (list CalibrationLine * option CalibrationStats)) : Prop :=
  match r with
  | Ok (_, Some _) => False
  | _ => True
  end.

(** Small maps on which the model is run. *)
Definition mono_example : DepthMap := [[100; 0]; [50; 200]].
Definition stereo_example : DepthMap := [[110; 30]; [0; 190]].

(** A row holding an invalid sample next to a valid one. *)
Definition half_valid_row : DepthMap := [[0; 100]].

Definition quality_example : DepthMap := [[100; 200]; [200; 0]].

(** A stereo row that is twice the mono row plus five. *)
Definition linear_mono : DepthMap := [[100; 200]].
Definition linear_stereo : DepthMap := [[205; 405]].

(** Two maps of a single pixel. *)
Definition single_mono : DepthMap := [[100]].
Definition single_stereo : DepthMap := [[200]].

End DepthCalibrationDiagnosis.

(** ** depth_analysis.py *)

Module DepthAnalysis.

(** *** Strings *)

(** The characters [str.split()] and [str.strip()] treat as blank. *)
Definition is_space (c : ascii) : bool :=
  let n := nat_of_ascii c in
  (n =? 32)%nat || ((9 <=? n)%nat && (n <=? 13)%nat).

(** [sub in s]. *)
Fixpoint contains (sub s : string) : bool :=
  if String.prefix sub s then true
  else match s with
       | EmptyString => false
       | String _ s' => contains sub s'
       end.

(** [line.split()]: the maximal runs of non-blank characters. *)
Fixpoint split_from (s word : string) : list string :=
  match s with
  | EmptyString => if decide (word = "") then [] else [word]
  | String c s' =>
      if is_space c
      then (if decide (word = "") then split_from s' ""
            else word :: split_from s' "")
      else split_from s' (word +:+ String c "")
  end.

Definition py_split (line : string) : list string := split_from line "".

Fixpoint lstrip (s : string) : string :=
  match s with
  | String c s' => if is_space c then lstrip s' else s
  | EmptyString => EmptyString
  end.

Fixpoint rstrip (s : string) : string :=
  match s with
  | String c s' =>
      let r := rstrip s' in
      if is_space c && bool_decide (r = "") then "" else String c r
  | EmptyString => EmptyString
  end.

Definition py_strip (s : string) : string := rstrip (lstrip s).

(** *** Files *)

(** [os.path.exists(path)] on a file system that maps each existing file to
    its lines. *)
Definition path_exists (fs : gmap string (list string)) (path : string)
  : bool :=
  match fs !! path with
  | Some _ => true
  | None => false
  end.

(** The dictionary returned by [load_camera_parameters]. *)
Record CameraParams : Type := mkCameraParams {
  left_matrix : Matrix;
  left_distortion : Matrix;
  right_matrix : Matrix;
  right_distortion : Matrix;
  rotation : Matrix;
  translation : list Q
}.

(** What the loader does that can be observed: the files it opens and the
    error lines it prints, each naming a path. *)
Inductive Event : Type :=
| Opened (path : string)
| MissingLeftIntrinsics (path : string)
| MissingRightIntrinsics (path : string)
| MissingRotTrans (path : string)
| LoadError (e : exn).

Definition left_qualified (device_name : string) : string :=
  "camera_parameters/camera0_intrinsics" +:+ device_name +:+ ".dat".
Definition left_base : string := "camera_parameters/camera0_intrinsics.dat".

Definition right_qualified (device_name : string) : string :=
  "camera_parameters/camera1_intrinsics" +:+ device_name +:+ ".dat".
Definition right_base : string := "camera_parameters/camera1_intrinsics.dat".

Definition rot_trans_qualified (device_name : string) : string :=
  "camera_parameters/camera1_rot_trans" +:+ device_name +:+ ".dat".
Definition rot_trans_base : string := "camera_parameters/camera1_rot_trans.dat".

(** The restriction of [float] to unsigned decimal integers, on which the
    model is run. *)
Fixpoint digits_value (s : string) (acc : Z) : result Z :=
  match s with
  | EmptyString => Ok acc
  | String c s' =>
      let n := nat_of_ascii c in
      if (48 <=? n)%nat && (n <=? 57)%nat
      then digits_value s' (10 * acc + Z.of_nat (n - 48))%Z
      else Raise ValueError
  end.

Definition float_of_digits (s : string) : result Q :=
  match s with
  | EmptyString => Raise ValueError
  | _ => n ← digits_value s 0%Z; Ok (inject_Z n)
  end.

Section Loader.

(** [float(x)]; it raises [ValueError] on a malformed literal. *)
Variable py_float : string -> result Q.

(** The loop over the lines of an intrinsics file, with its two flags. *)
Fixpoint parse_intrinsics_lines (lines : list string)
    (reading_intrinsic reading_distortion : bool)
    (camera_matrix : Matrix) (distortion : list Q)
  : result (Matrix * list Q) :=
  match lines with
  | [] => Ok (camera_matrix, distortion)
  | line :: rest =>
      if contains "intrinsic:" line then
        parse_intrinsics_lines rest true false camera_matrix distortion
      else if contains "distortion:" line then
        parse_intrinsics_lines rest false true camera_matrix distortion
      else if reading_intrinsic then
        row ← mapM py_float (py_split line);
        parse_intrinsics_lines rest reading_intrinsic reading_distortion
                               (camera_matrix ++ [row]) distortion
      else if reading_distortion then
        row ← mapM py_float (py_split line);
        parse_intrinsics_lines rest reading_intrinsic reading_distortion
                               camera_matrix row
      else
        parse_intrinsics_lines rest reading_intrinsic reading_distortion
                               camera_matrix distortion
  end.

(** The camera matrix and [np.array([distortion])].  [np.array] is taken to
    keep the rows as they were read. *)
Definition parse_intrinsics (lines : list string) : result (Matrix * Matrix) :=
  r ← parse_intrinsics_lines lines false false [] [];
  Ok (fst r, [snd r]).

(** The loop over the lines of the rotation and translation file. *)
Fixpoint parse_rot_trans_lines (lines : list string)
    (reading_rotation reading_translation : bool)
    (rotation_matrix : Matrix) (translation_vector : list Q)
  : result (Matrix * list Q) :=
  match lines with
  | [] => Ok (rotation_matrix, translation_vector)
  | line :: rest =>
      if contains "R:" line then
        parse_rot_trans_lines rest true false rotation_matrix
                              translation_vector
      else if contains "T:" line then
        parse_rot_trans_lines rest false true rotation_matrix
                              translation_vector
      else if reading_rotation && negb (bool_decide (py_strip line = "")) then
        row ← mapM py_float (py_split line);
        parse_rot_trans_lines rest reading_rotation reading_translation
                              (rotation_matrix ++ [row]) translation_vector
      else if reading_translation
              && negb (bool_decide (py_strip line = "")) then
        t ← py_float (py_strip line);
        parse_rot_trans_lines rest reading_rotation reading_translation
                              rotation_matrix (translation_vector ++ [t])
      else
        parse_rot_trans_lines rest reading_rotation reading_translation
                              rotation_matrix translation_vector
  end.

(** The rotation and [np.array(translation_vector).reshape(3, 1)], which
    raises [ValueError] unless three components were read. *)
Definition parse_rot_trans (lines : list string) : result (Matrix * list Q) :=
  r ← parse_rot_trans_lines lines false false [] [];
  if (length (snd r) =? 3)%nat then Ok r else Raise ValueError.

(** [load_camera_parameters(device_name)].  Each of the three files is
    looked up under its device-qualified name first and under its base name
    second; a file found under neither name ends the load with an error line
    naming the base path; an exception raised while parsing is caught and
    ends the load as well. *)
Definition load_camera_parameters (fs : gmap string (list string))
    (device_name : string) : list Event * option CameraParams :=
  let left_intrinsics_file :=
    if path_exists fs (left_qualified device_name)
    then left_qualified device_name else left_base in
  match fs !! left_intrinsics_file with
  | None => ([MissingLeftIntrinsics left_intrinsics_file], None)
  | Some left_lines =>
      match parse_intrinsics left_lines with
      | Raise e => ([Opened left_intrinsics_file; LoadError e], None)
      | Ok (camera_matrix_left, distortion_left) =>
          let right_intrinsics_file :=
            if path_exists fs (right_qualified device_name)
            then right_qualified device_name else right_base in
          match fs !! right_intrinsics_file with
          | None =>
              ([Opened left_intrinsics_file;
                MissingRightIntrinsics right_intrinsics_file], None)
          | Some right_lines =>
              match parse_intrinsics right_lines with
              | Raise e =>
                  ([Opened left_intrinsics_file;
                    Opened right_intrinsics_file; LoadError e], None)
              | Ok (camera_matrix_right, distortion_right) =>
                  let rot_trans_file :=
                    if path_exists fs (rot_trans_qualified device_name)
                    then rot_trans_qualified device_name
                    else rot_trans_base in
                  match fs !! rot_trans_file with
                  | None =>
                      ([Opened left_intrinsics_file;
                        Opened right_intrinsics_file;
                        MissingRotTrans rot_trans_file], None)
                  | Some rot_lines =>
                      match parse_rot_trans rot_lines with
                      | Raise e =>
                          ([Opened left_intrinsics_file;
                            Opened right_intrinsics_file;
                            Opened rot_trans_file; LoadError e], None)
                      | Ok (rotation_matrix, translation_vector) =>
                          ([Opened left_intrinsics_file;
                            Opened right_intrinsics_file;
                            Opened rot_trans_file],
                           Some {| left_matrix := camera_matrix_left;
                                   left_distortion := distortion_left;
                                   right_matrix := camera_matrix_right;
                                   right_distortion := distortion_right;
                                   rotation := rotation_matrix;
                                   translation := translation_vector |})
                      end
                  end
              end
          end
      end
  end.

End Loader.

(** *** Depth factors and the comparison of two devices *)

(** The dictionary returned by [analyze_depth_factors]. *)
Record DepthFactors : Type := mkDepthFactors {
  focal_length_left : Q;
  focal_length_right : Q;
  baseline : Q;
  rotation_angles : Q * Q * Q
}.

(** [calculate_depth_from_disparity(disparity, baseline, focal_length)]: a
    disparity that is not positive is replaced by [1e-6] before the
    division. *)
Definition calculate_depth_from_disparity (disparity baseline focal_length : Q)
  : npfloat :=
  let disparity := if Qgtb disparity 0 then disparity else 1 # 1000000 in
  np_div (Fin (baseline * focal_length)) (Fin disparity).

(** What [simulate_depth_calculation] prints, one constructor per [print]
    of lines 190-203. *)
Inductive SimulationLine : Type :=
| SimHeader
| SimParameters (baseline focal_length : Q)
| SimDepth (disparity : Q) (depth : npfloat)
| SimScaleFactor (factor : Q)
| SimInverseNote.

(** What [compare_devices] prints after the two parameter sets. *)
Inductive DeviceLine : Type :=
| CannotLoadDevices
| ParameterDifference (focal_diff baseline_diff : Q)
| DeviationWarning (depth1 depth2 difference percent : npfloat)
| CheckMountingDistance
| RecalibrateFocal
| RotationAffectsDepth.

(** What [main] prints, by stage. *)
Inductive MainLine : Type :=
| Loaded (events : list Event)
| Factors (f : DepthFactors)
| Simulation (lines : list SimulationLine)
| Comparison (lines : list DeviceLine)
| NoSecondDevice.

Definition default_disparities : list Q := [10; 20; 50; 100].

(** [simulate_depth_calculation(params, test_disparities)], on the
    dictionary of [analyze_depth_factors]. *)
Definition simulate_depth_calculation (params : DepthFactors)
    (test_disparities : list Q) : list SimulationLine :=
  let baseline := baseline params in
  let focal_length :=
    (focal_length_left params + focal_length_right params) / 2 in
  [SimHeader; SimParameters baseline focal_length]
  ++ map (fun disp =>
            SimDepth disp
              (calculate_depth_from_disparity disp baseline focal_length))
         test_disparities
  ++ [SimScaleFactor (baseline * focal_length); SimInverseNote].

Section Devices.

Variable py_float : string -> result Q.
Variable np_sqrt : Q -> Q.
Variable RQDecomp3x3 : Matrix -> result (Q * Q * Q).

(** [analyze_depth_factors(params)].  The indexing is not guarded: a matrix
    read from a malformed file raises [IndexError] here. *)
Definition analyze_depth_factors (params : CameraParams)
  : result DepthFactors :=
  fx_left ← mat_get (left_matrix params) 0 0;
  fy_left ← mat_get (left_matrix params) 1 1;
  fx_right ← mat_get (right_matrix params) 0 0;
  fy_right ← mat_get (right_matrix params) 1 1;
  let baseline := np_sqrt (Qsum (map Qsquare (translation params))) in
  cx_left ← mat_get (left_matrix params) 0 2;
  cy_left ← mat_get (left_matrix params) 1 2;
  cx_right ← mat_get (right_matrix params) 0 2;
  cy_right ← mat_get (right_matrix params) 1 2;
  _ ← DepthCalibrationDiagnosis.index (left_distortion params) 0;
  _ ← DepthCalibrationDiagnosis.index (right_distortion params) 0;
  angles ← RQDecomp3x3 (rotation params);
  Ok {| focal_length_left := (fx_left + fy_left) / 2;
        focal_length_right := (fx_right + fy_right) / 2;
        baseline := baseline;
        rotation_angles := angles |}.

(** The body of [compare_devices] once both parameter sets are loaded. *)
Definition compare_loaded (params1 params2 : CameraParams)
  : result (list DeviceLine) :=
  factors1 ← analyze_depth_factors params1;
  factors2 ← analyze_depth_factors params2;
  let focal_diff :=
    Qabs (focal_length_left factors1 - focal_length_left factors2) in
  let baseline_diff := Qabs (baseline factors1 - baseline factors2) in
  let warning :=
    if Qgtb baseline_diff (1 # 10) || Qgtb focal_diff 1 then
      let test_disparity := 50 in
      let depth1 :=
        calculate_depth_from_disparity test_disparity (baseline factors1)
                                       (focal_length_left factors1) in
      let depth2 :=
        calculate_depth_from_disparity test_disparity (baseline factors2)
                                       (focal_length_left factors2) in
      let difference := np_abs (np_sub depth1 depth2) in
      [DeviationWarning depth1 depth2 difference
         (np_mul (np_div difference depth1) (Fin 100))]
    else [] in
  let a1 := if Qgtb baseline_diff 5 then [CheckMountingDistance] else [] in
  let a2 := if Qgtb focal_diff 10 then [RecalibrateFocal] else [] in
  let a3 :=
    if Qgtb (Qabs (snd (fst (rotation_angles factors1)))) 5
       || Qgtb (Qabs (snd (fst (rotation_angles factors2)))) 5
    then [RotationAffectsDepth] else [] in
  Ok ([ParameterDifference focal_diff baseline_diff]
      ++ warning ++ a1 ++ a2 ++ a3).

(** [compare_devices(device1_name, device2_name)]. *)
Definition compare_devices (fs : gmap string (list string))
    (device1_name device2_name : string) : result (list DeviceLine) :=
  let params1 := snd (load_camera_parameters py_float fs device1_name) in
  let params2 := snd (load_camera_parameters py_float fs device2_name) in
  match params1, params2 with
  | Some p1, Some p2 => compare_loaded p1 p2
  | _, _ => Ok [CannotLoadDevices]
  end.

(** [main()]: the default device is analysed when it loads; the comparison
    runs when the left intrinsics of the second device exist. *)
Definition main (fs : gmap string (list string)) : result (list MainLine) :=
  let loaded := load_camera_parameters py_float fs "" in
  first ←
    match snd loaded with
    | Some params =>
        factors ← analyze_depth_factors params;
        Ok [Loaded (fst loaded); Factors factors;
            Simulation (simulate_depth_calculation factors
                                                   default_disparities)]
    | None => Ok [Loaded (fst loaded)]
    end;
  if path_exists fs "camera_parameters/camera0_intrinsics_device2.dat" then
    lines ← compare_devices fs "" "_device2";
    Ok (first ++ [Comparison lines])
  else Ok (first ++ [NoSecondDevice]).

End Devices.

(** A parameter directory holding a device-qualified left intrinsics file
    next to the three base files. *)
Definition intrinsics_lines (fx : string) : list string :=
  ["intrinsic:"; fx +:+ " 0 640"; "0 " +:+ fx +:+ " 360"; "0 0 1";
   "distortion:"; "0 0 0 0 0"].

Definition rot_trans_lines : list string :=
  ["R:"; "1 0 0"; "0 1 0"; "0 0 1"; "T:"; "120"; "0"; "0"].

Definition fs_example : gmap string (list string) :=
  {[ left_qualified "_device2" := intrinsics_lines "1050";
     left_base := intrinsics_lines "1000";
     right_base := intrinsics_lines "1010";
     rot_trans_base := rot_trans_lines ]}.

(** Two parameter sets that differ in the left focal length and in the
    baseline. *)
Definition params_example (focal baseline_x : Q) : CameraParams :=
  {| left_matrix := [[focal; 0; 640]; [0; focal; 360]; [0; 0; 1]];
     left_distortion := [[0; 0; 0; 0; 0]];
     right_matrix := [[1000; 0; 640]; [0; 1000; 360]; [0; 0; 1]];
     right_distortion := [[0; 0; 0; 0; 0]];
     rotation := [[1; 0; 0]; [0; 1; 0]; [0; 0; 1]];
     translation := [baseline_x; 0; 0] |}.

(** A parameter directory whose left intrinsics file lacks the line
    holding [intrinsic:]. *)
Definition fs_markerless : gmap string (list string) :=
  {[ left_base := ["1000 0 640"; "0 1000 360"; "0 0 1";
                   "distortion:"; "0 0 0 0 0"];
     right_base := intrinsics_lines "1010";
     rot_trans_base := rot_trans_lines ]}.

(** The matrix part of an intrinsics file, and a line holding a newline
    only. *)
Definition matrix_lines : list string :=
  ["intrinsic:"; "1000 0 640"; "0 1000 360"; "0 0 1"].

Definition blank_line : string := String "010"%char EmptyString.

End DepthAnalysis.

(* ================================================================== *)
(** * Properties *)

Lemma Qltb_lt (a b : Q) : Qltb a b = true <-> a < b.
Proof.
  unfold Qltb. rewrite Qlt_alt. destruct (a ?= b); split; congruence.
Qed.

Lemma Qltb_ge (a b : Q) : Qltb a b = false <-> b <= a.
Proof.
  rewrite <- not_true_iff_false, Qltb_lt. split.
  - apply Qnot_lt_le.
  - apply Qle_not_lt.
Qed.

Lemma Qgtb_gt (a b : Q) : Qgtb a b = true <-> b < a.
Proof. apply Qltb_lt. Qed.

Module CameraDiagnosisSpec.
Import CameraDiagnosis.

(** ** ROI consistency *)

(** Lines 142-168 as they are written: when the two ROIs differ in width
    or in height, the verdict is the intersection rectangle if it has
    positive width and height, and the element-wise minimum of the sizes
    otherwise. *)
Theorem roi_verdict_mismatch (x1 y1 w1 h1 x2 y2 w2 h2 : Z) :
  (w1 <> w2 \/ h1 <> h2)%Z ->
  let ow := (Z.min (x1 + w1) (x2 + w2) - Z.max x1 x2)%Z in
  let oh := (Z.min (y1 + h1) (y2 + h2) - Z.max y1 y2)%Z in
  ((0 < ow /\ 0 < oh)%Z ->
     roi_verdict (mkRect x1 y1 w1 h1) (mkRect x2 y2 w2 h2)
     = RoiOverlap (Z.max x1 x2) (Z.max y1 y2) ow oh)
  /\ (~ (0 < ow /\ 0 < oh)%Z ->
     roi_verdict (mkRect x1 y1 w1 h1) (mkRect x2 y2 w2 h2)
     = RoiSuggestSize (Z.min w1 w2) (Z.min h1 h2)).
Proof.
  intros Hdiff ow oh. unfold roi_verdict; cbn [rx ry rw rh].
  assert (Hguard : negb (w1 =? w2)%Z || negb (h1 =? h2)%Z = true).
  { destruct Hdiff as [H | H]; apply Z.eqb_neq in H; rewrite H;
      [reflexivity | apply orb_true_r]. }
  rewrite Hguard. subst ow oh. split.
  - intros [Hw Hh].
    assert (Hx : (Z.max x1 x2 <? Z.min (x1 + w1) (x2 + w2))%Z = true)
      by (apply Z.ltb_lt; lia).
    assert (Hy : (Z.max y1 y2 <? Z.min (y1 + h1) (y2 + h2))%Z = true)
      by (apply Z.ltb_lt; lia).
    rewrite Hx, Hy. reflexivity.
  - intros Hno.
    destruct (Z.ltb_spec (Z.max x1 x2) (Z.min (x1 + w1) (x2 + w2)));
      destruct (Z.ltb_spec (Z.max y1 y2) (Z.min (y1 + h1) (y2 + h2)));
      cbn [andb]; try reflexivity.
    exfalso. apply Hno. lia.
Qed.

Lemma roi_verdict_mismatch_witness :
  roi_verdict (mkRect 10 20 600 400) (mkRect 30 10 620 400)
  = RoiOverlap 30 20 580 390
  /\ roi_verdict (mkRect 0 0 10 10) (mkRect 50 50 8 12)
  = RoiSuggestSize 8 10.
Proof.
  split.
  - apply (roi_verdict_mismatch 10 20 600 400 30 10 620 400).
    + left. lia.
    + lia.
  - apply (roi_verdict_mismatch 0 0 10 10 50 50 8 12).
    + left. lia.
    + lia.
Defined.

(** Every entry of the sweep over the test sizes carries the verdict of its
    own pair of ROIs. *)
Lemma analyze_roi_consistency_entries
    (stereoRectify : CameraParams -> Z * Z -> Rect * Rect)
    (p : CameraParams) (e : RoiEntry) :
  In e (analyze_roi_consistency stereoRectify (Some p)) ->
  In (entry_size e) test_sizes
  /\ stereoRectify p (entry_size e) = (entry_roi1 e, entry_roi2 e)
  /\ entry_verdict e = roi_verdict (entry_roi1 e) (entry_roi2 e).
Proof.
  unfold analyze_roi_consistency. rewrite in_map_iff.
  intros (size & He & Hin).
  destruct (stereoRectify p size) as [roi1 roi2] eqn:Hrect.
  subst e. cbn [entry_size entry_roi1 entry_roi2 entry_verdict]. auto.
Qed.

Example roi_consistent :
  roi_verdict (mkRect 0 0 640 480) (mkRect 5 3 640 480) = RoiConsistent.
Proof. reflexivity. Qed.

(** ** Alignment advice *)

Section Alignment.

Variable np_sqrt : Q -> Q.
Variable RQDecomp3x3 : Matrix -> result (Q * Q * Q).

Lemma mat_get_3x3 (m : Matrix) (i j : nat) :
  is_3x3 m = true -> (i < 3)%nat -> (j < 3)%nat ->
  mat_get m i j = Ok (entry m i j).
Proof.
  intros Hm Hi Hj.
  destruct m as [|[|a0 [|a1 [|a2 [|]]]] [|[|b0 [|b1 [|b2 [|]]]]
                 [|[|c0 [|c1 [|c2 [|]]]] [|]]]]; try discriminate Hm.
  destruct i as [|[|[|i]]]; try lia;
    destruct j as [|[|[|j]]]; try lia; reflexivity.
Qed.

Lemma advice_membership (b1 b2 b3 : bool) :
  let l := (if b1 then [PrincipalPointDivergence] else [])
           ++ (if b2 then [FocalLengthDivergence] else [])
           ++ (if b3 then [BaselineAbnormal] else []) in
  (In PrincipalPointDivergence l <-> b1 = true)
  /\ (In FocalLengthDivergence l <-> b2 = true)
  /\ (In BaselineAbnormal l <-> b3 = true).
Proof.
  destruct b1, b2, b3; cbn; repeat split; intros H;
    repeat (destruct H as [H | H]; try discriminate H);
    auto; try contradiction; try discriminate.
Qed.

(** Lines 183-218 as they are written: on a rig whose two camera matrices
    are 3x3 the report is complete, and each advisory flag is raised exactly
    when its own threshold is exceeded: the principal-point flag iff
    [max(dcx, dcy) > 50], the focal flag iff [max(dfx, dfy) > 20], the
    baseline flag iff the baseline is below 10 or above 200. *)
Theorem check_camera_alignment_flags (p : CameraParams) (ang : Q * Q * Q) :
  is_3x3 (cmtx_left p) = true ->
  is_3x3 (cmtx_right p) = true ->
  RQDecomp3x3 (rotation p) = Ok ang ->
  exists rep : AlignmentReport,
    check_camera_alignment np_sqrt RQDecomp3x3 (Some p) = Ok (Some rep)
    /\ delta_cx rep = Qabs (entry (cmtx_left p) 0 2 - entry (cmtx_right p) 0 2)
    /\ delta_cy rep = Qabs (entry (cmtx_left p) 1 2 - entry (cmtx_right p) 1 2)
    /\ delta_fx rep = Qabs (entry (cmtx_left p) 0 0 - entry (cmtx_right p) 0 0)
    /\ delta_fy rep = Qabs (entry (cmtx_left p) 1 1 - entry (cmtx_right p) 1 1)
    /\ baseline rep = linalg_norm np_sqrt (translation p)
    /\ angles rep = ang
    /\ (In PrincipalPointDivergence (advice rep)
        <-> 50 < Qmax (delta_cx rep) (delta_cy rep))
    /\ (In FocalLengthDivergence (advice rep)
        <-> 20 < Qmax (delta_fx rep) (delta_fy rep))
    /\ (In BaselineAbnormal (advice rep)
        <-> baseline rep < 10 \/ 200 < baseline rep).
Proof.
  intros Hl Hr Hang. unfold check_camera_alignment.
  rewrite !(mat_get_3x3 _ _ _ Hl), !(mat_get_3x3 _ _ _ Hr) by lia.
  cbn [mbind result_bind]. rewrite Hang. cbn [mbind result_bind].
  eexists. split; [reflexivity |]. cbn [delta_cx delta_cy delta_fx delta_fy
    baseline angles advice].
  repeat (split; [reflexivity |]).
  match goal with
  | |- context [?l1 ++ ?l2 ++ ?l3] =>
      match l1 with (if ?b1 then _ else _) =>
      match l2 with (if ?b2 then _ else _) =>
      match l3 with (if ?b3 then _ else _) =>
        destruct (advice_membership b1 b2 b3) as (Hpp & Hfl & Hbl)
      end end end
  end.
  cbv zeta in Hpp, Hfl, Hbl.
  rewrite Hpp, Hfl, Hbl, !Q.max_lt_iff, !orb_true_iff, !Qgtb_gt, Qltb_lt.
  tauto.
Qed.

End Alignment.

(** Focal lengths 1000 and 1050 and principal points 640 and 700 raise the
    two divergence flags; the baseline of [T = (120, 0, 0)] is 120 and
    raises none. *)
Example rig_example_advice :
  exists rep : AlignmentReport,
    check_camera_alignment isqrt (fun _ => Ok (0, 0, 0)) (Some rig_example)
    = Ok (Some rep)
    /\ baseline rep = 120
    /\ advice rep = [PrincipalPointDivergence; FocalLengthDivergence].
Proof. eexists. repeat split. Qed.

Lemma check_camera_alignment_flags_witness :
  exists rep : AlignmentReport,
    check_camera_alignment isqrt (fun _ => Ok (0, 0, 0)) (Some rig_example)
    = Ok (Some rep)
    /\ (In PrincipalPointDivergence (advice rep)
        <-> 50 < Qmax (delta_cx rep) (delta_cy rep))
    /\ (In FocalLengthDivergence (advice rep)
        <-> 20 < Qmax (delta_fx rep) (delta_fy rep))
    /\ (In BaselineAbnormal (advice rep)
        <-> baseline rep < 10 \/ 200 < baseline rep).
Proof.
  destruct (check_camera_alignment_flags isqrt (fun _ => Ok (0, 0, 0))
              rig_example (0, 0, 0) eq_refl eq_refl eq_refl)
    as (rep & Hrun & _ & _ & _ & _ & _ & _ & Hpp & Hfl & Hbl).
  exists rep. auto.
Defined.

(** ** The script as it stands *)

(** The [except] of the loader (line 104) is indented deeper than the
    [return] before it (line 102), which opens no block: the compiler
    rejects the file there, whatever the parameter files hold. *)
Lemma module_is_rejected :
  compile_blocks module_lines [O] None = IndentationError 104.
Proof. vm_compute. reflexivity. Qed.

(** It is the only defect of the block structure: with the [except] in the
    column of its [try] the file compiles. *)
Lemma module_compiles_with_except_aligned :
  compile_blocks module_lines_aligned [O] None = Compiled.
Proof. vm_compute. reflexivity. Qed.

Lemma camera_diagnosis_not_compiled
    (stereoRectify : CameraParams -> Z * Z -> Rect * Rect)
    (np_sqrt : Q -> Q) (RQDecomp3x3 : Matrix -> result (Q * Q * Q))
    (params : option CameraParams) :
  camera_diagnosis stereoRectify np_sqrt RQDecomp3x3 params = NotCompiled 104.
Proof. unfold camera_diagnosis. rewrite module_is_rejected. reflexivity. Qed.

(** C1. On ROIs (10, 20, 600, 400) and (30, 10, 620, 400), which differ in
    width and overlap, lines 142-168 give their intersection
    (30, 20, 580, 390) as the unified region, for each of the three tested
    sizes; the script reports none of it, because the compiler rejects the
    file at line 104 before any statement runs. *)
Theorem roi_verdict_is_never_reported :
  map entry_verdict (analyze_roi_consistency rectify_example (Some rig_example))
  = [RoiOverlap 30 20 580 390; RoiOverlap 30 20 580 390;
     RoiOverlap 30 20 580 390]
  /\ camera_diagnosis rectify_example isqrt (fun _ => Ok (0, 0, 0))
                      (Some rig_example)
     = NotCompiled 104
  /\ reported_rois (camera_diagnosis rectify_example isqrt
                                     (fun _ => Ok (0, 0, 0))
                                     (Some rig_example))
     = [].
Proof.
  split; [reflexivity |].
  rewrite camera_diagnosis_not_compiled. split; reflexivity.
Qed.

(** C5. On the rig of [rig_example], whose principal points differ by 60
    and whose focal lengths differ by 50, lines 183-218 give a complete
    report with the two divergence flags; the script produces no report and
    raises no flag, because the compiler rejects the file at line 104
    before any statement runs. *)
Theorem alignment_report_is_never_produced :
  (exists rep : AlignmentReport,
      check_camera_alignment isqrt (fun _ => Ok (0, 0, 0)) (Some rig_example)
      = Ok (Some rep)
      /\ advice rep = [PrincipalPointDivergence; FocalLengthDivergence])
  /\ reported_alignment (camera_diagnosis rectify_example isqrt
                                          (fun _ => Ok (0, 0, 0))
                                          (Some rig_example))
     = None.
Proof.
  split; [eexists; split; reflexivity |].
  rewrite camera_diagnosis_not_compiled. reflexivity.
Qed.

End CameraDiagnosisSpec.

(** ** numpy primitives on finite values *)

Lemma count_true_cons (b : bool) (l : list bool) :
  count_true (b :: l) = if b then S (count_true l) else count_true l.
Proof.
  unfold count_true. rewrite filter_cons.
  destruct b; case_decide; try congruence; reflexivity.
Qed.

Lemma inject_nat_nonzero (n : nat) :
  n <> O -> Qeq_bool (inject_Z (Z.of_nat n)) 0 = false.
Proof.
  intros Hn. apply not_true_iff_false. intros H.
  apply Qeq_bool_iff in H. unfold Qeq in H. cbn in H. lia.
Qed.

Lemma inject_nat_pos (n : nat) : n <> O -> 0 < inject_Z (Z.of_nat n).
Proof. intros Hn. unfold Qlt. cbn. lia. Qed.

Lemma np_sum_Fin (l : list Q) : np_sum (map Fin l) = Fin (Qsum l).
Proof.
  induction l as [|x l IH]; [reflexivity |].
  cbn [map]. unfold np_sum in *. cbn [foldr]. rewrite IH. reflexivity.
Qed.

Lemma np_mean_Fin (l : list Q) :
  l <> [] ->
  np_mean (map Fin l) = Fin (Qmean l).
Proof.
  intros Hl. unfold np_mean, Qmean. rewrite np_sum_Fin, length_map.
  unfold of_nat, np_div. rewrite inject_nat_nonzero; [reflexivity |].
  destruct l; [congruence | discriminate].
Qed.

Lemma Qmult_self_nonneg (x : Q) : 0 <= x * x.
Proof.
  unfold Qle, Qmult. cbn. rewrite Z.mul_1_r. apply Z.square_nonneg.
Qed.

Lemma Qmult_self_pos (x : Q) : ~ x == 0 -> 0 < x * x.
Proof.
  intros Hx. pose proof (Qmult_self_nonneg x) as H.
  apply Qle_lteq in H. destruct H as [H | H]; [exact H |].
  exfalso. apply Hx. symmetry in H. apply Qmult_integral in H. tauto.
Qed.

Lemma Qsum_nonneg (l : list Q) : Forall (fun x => 0 <= x) l -> 0 <= Qsum l.
Proof.
  induction 1 as [|x l Hx _ IH]; cbn; [apply Qle_refl |].
  replace 0 with (0 + 0) by reflexivity. apply Qplus_le_compat; assumption.
Qed.

Lemma Qmean_nonneg (l : list Q) : Forall (fun x => 0 <= x) l -> 0 <= Qmean l.
Proof.
  intros H. unfold Qmean. destruct l as [|x l].
  - cbn. discriminate.
  - apply Qle_shift_div_l.
    + apply inject_nat_pos. discriminate.
    + rewrite Qmult_0_l. apply Qsum_nonneg, H.
Qed.

Lemma Qvar_nonneg (l : list Q) : 0 <= Qvar l.
Proof.
  unfold Qvar. apply Qmean_nonneg. apply Forall_map, Forall_forall.
  intros x _. apply Qmult_le_0_compat; apply Qabs_nonneg.
Qed.

Lemma np_min_Fin (l : list Q) :
  l <> [] -> exists q : Q, np_min (map Fin l) = Ok (Fin q).
Proof.
  destruct l as [|x l]; [congruence | intros _]. cbn [map np_min].
  revert x. induction l as [|y l IH]; intros x; cbn [map foldl].
  - eauto.
  - unfold np_minimum at 2, np_ltb, np_gtb.
    destruct (Qgtb x y); apply IH.
Qed.

Lemma np_max_Fin (l : list Q) :
  l <> [] -> exists q : Q, np_max (map Fin l) = Ok (Fin q).
Proof.
  destruct l as [|x l]; [congruence | intros _]. cbn [map np_max].
  revert x. induction l as [|y l IH]; intros x; cbn [map foldl].
  - eauto.
  - unfold np_maximum at 2, np_gtb.
    destruct (Qgtb y x); apply IH.
Qed.

Lemma zip_np_div_Fin (a b : list Q) :
  Forall (fun m => 0 < m) b ->
  zip_with np_div (map Fin a) (map Fin b) = map Fin (zip_with Qdiv a b).
Proof.
  intros Hb. revert a. induction Hb as [|m b Hm _ IH]; intros [|x a];
    try reflexivity.
  cbn [map zip_with]. rewrite IH. f_equal.
  unfold np_div.
  assert (Hz : Qeq_bool m 0 = false).
  { apply not_true_iff_false. intros H. apply Qeq_bool_iff in H.
    rewrite H in Hm. apply (Qlt_irrefl 0 Hm). }
  rewrite Hz. reflexivity.
Qed.

Lemma zip_np_sub_Fin (a b : list Q) :
  zip_with np_sub (map Fin a) (map Fin b) = map Fin (zip_with Qminus a b).
Proof.
  revert b. induction a as [|x a IH]; intros [|y b]; try reflexivity.
  cbn [map zip_with]. rewrite IH. reflexivity.
Qed.

Module DepthCalibrationDiagnosisSpec.
Import DepthCalibrationDiagnosis.

(** ** Depth quality *)

Section Quality.

Variable np_sqrt : Q -> Q.
Variable Sobel : DepthMap -> nat -> nat -> Matrix.

Lemma valid_pos (d : Q) : valid d = true <-> 0 < d.
Proof. apply Qgtb_gt. Qed.

Lemma count_true_valid_none (l : list Q) :
  Forall (fun d => d <= 0) l -> count_true (map valid l) = O.
Proof.
  induction 1 as [|d l Hd _ IH]; [reflexivity |].
  cbn [map]. rewrite count_true_cons, IH.
  destruct (valid d) eqn:Hv; [| reflexivity].
  apply valid_pos in Hv. exfalso. apply (Qlt_not_le _ _ Hv Hd).
Qed.

(** C7. On a depth map with at least one sample, all of them non-positive,
    the analyzer does not raise; it prints the shape, the count line with a
    validity ratio equal to zero and the no-valid-depth warning, prints no
    derived statistic and returns no dictionary. *)
Theorem analyze_depth_quality_no_valid (dm : DepthMap) :
  Forall (fun d => d <= 0) (concat dm) ->
  concat dm <> [] ->
  exists ratio : Q,
    ratio == 0
    /\ analyze_depth_quality np_sqrt Sobel (Some dm)
       = Ok ([QHeader; QShape (shape dm);
              QValidPixels 0 (length (concat dm)) (Fin ratio);
              QNoValidDepth], None).
Proof.
  intros Hall Hne. unfold analyze_depth_quality.
  rewrite (count_true_valid_none _ Hall). cbn [Nat.eqb].
  unfold of_nat, np_div, np_mul.
  rewrite inject_nat_nonzero by (destruct (concat dm); [congruence | discriminate]).
  eexists. split; [| reflexivity].
  cbn [Z.of_nat]. unfold Qdiv. ring.
Qed.

(** On the empty array the ratio is [0 / 0]: numpy prints [nan] and the
    function still returns through the same branch. *)
Lemma analyze_depth_quality_empty :
  analyze_depth_quality np_sqrt Sobel (Some [])
  = Ok ([QHeader; QShape (O, O); QValidPixels 0 0 NaN; QNoValidDepth], None).
Proof. reflexivity. Qed.

End Quality.

Lemma analyze_depth_quality_no_valid_witness :
  exists ratio : Q,
    ratio == 0
    /\ analyze_depth_quality isqrt (fun d _ _ => d) (Some [[0; 0]; [0; -1]])
       = Ok ([QHeader; QShape (2%nat, 2%nat);
              QValidPixels 0 4 (Fin ratio); QNoValidDepth], None).
Proof.
  apply (analyze_depth_quality_no_valid isqrt (fun d _ _ => d)
           [[0; 0]; [0; -1]]).
  - repeat constructor; discriminate.
  - discriminate.
Defined.

(** ** Comparison of two depth maps *)

Lemma select_both_pos_l (a b : list Q) :
  Forall (fun m => 0 < m)
         (select (zip_with andb (map valid a) (map valid b)) a).
Proof.
  revert b. induction a as [|x a IH]; intros [|y b]; cbn; try constructor.
  destruct (valid x) eqn:Hx, (valid y); cbn; try apply IH.
  constructor; [apply Qgtb_gt, Hx | apply IH].
Qed.


Lemma select_both_length_l (a b : list Q) :
  length (select (zip_with andb (map valid a) (map valid b)) a)
  = count_true (zip_with andb (map valid a) (map valid b)).
Proof.
  revert b. induction a as [|x a IH]; intros [|y b]; try reflexivity.
  cbn [map zip_with select]. rewrite count_true_cons.
  destruct (valid x && valid y); cbn [length]; rewrite IH; reflexivity.
Qed.

Lemma select_both_length_r (a b : list Q) :
  length (select (zip_with andb (map valid a) (map valid b)) b)
  = count_true (zip_with andb (map valid a) (map valid b)).
Proof.
  revert b. induction a as [|x a IH]; intros [|y b]; try reflexivity.
  cbn [map zip_with select]. rewrite count_true_cons.
  destruct (valid x && valid y); cbn [length]; rewrite IH; reflexivity.
Qed.

Lemma mono_valid_depths_pos (mono stereo : DepthMap) :
  Forall (fun m => 0 < m) (mono_valid_depths mono stereo).
Proof. apply select_both_pos_l. Qed.


Lemma mono_valid_depths_length (mono stereo : DepthMap) :
  length (mono_valid_depths mono stereo)
  = count_true (both_valid mono stereo).
Proof. apply select_both_length_l. Qed.

Lemma stereo_valid_depths_length (mono stereo : DepthMap) :
  length (stereo_valid_depths mono stereo)
  = count_true (both_valid mono stereo).
Proof. apply select_both_length_r. Qed.

Lemma depth_ratios_Fin (mono stereo : DepthMap) :
  depth_ratios mono stereo
  = map Fin (zip_with Qdiv (stereo_valid_depths mono stereo)
                           (mono_valid_depths mono stereo)).
Proof. apply zip_np_div_Fin, mono_valid_depths_pos. Qed.

Lemma depth_diffs_Fin (mono stereo : DepthMap) :
  depth_diffs mono stereo
  = map Fin (zip_with Qminus (stereo_valid_depths mono stereo)
                             (mono_valid_depths mono stereo)).
Proof. apply zip_np_sub_Fin. Qed.

Lemma paired_nonempty {A : Type} (f : Q -> Q -> A) (mono stereo : DepthMap) :
  count_true (both_valid mono stereo) <> O ->
  zip_with f (stereo_valid_depths mono stereo) (mono_valid_depths mono stereo)
  <> [].
Proof.
  intros Hn H. apply (f_equal length) in H.
  rewrite length_zip_with, stereo_valid_depths_length,
    mono_valid_depths_length in H.
  cbn in H. lia.
Qed.

Section Comparison.

Variable np_sqrt : Q -> Q.

Lemma np_std_Fin (l : list Q) :
  l <> [] -> np_std np_sqrt (map Fin l) = Fin (np_sqrt (Qvar l)).
Proof.
  intros Hl. unfold np_std. rewrite (np_mean_Fin l Hl). cbv zeta.
  assert (E : map (fun x => np_mul (np_abs (np_sub x (Fin (Qmean l))))
                                   (np_abs (np_sub x (Fin (Qmean l)))))
                  (map Fin l)
              = map Fin (map (fun x => Qabs (x - Qmean l) * Qabs (x - Qmean l))
                             l))
    by (rewrite !map_map; reflexivity).
  rewrite E.
  rewrite np_mean_Fin by (destruct l; [congruence | discriminate]).
  fold (Qvar l). unfold np_sqrt_f.
  rewrite (proj2 (Qltb_ge _ _) (Qvar_nonneg l)). reflexivity.
Qed.

(** On two maps of one shape with a jointly valid sample every statistic is
    computed on finite values. *)
Lemma compare_depth_maps_same_shape (mono stereo : DepthMap) :
  shape mono = shape stereo ->
  count_true (both_valid mono stereo) <> O ->
  let rs := zip_with Qdiv (stereo_valid_depths mono stereo)
                          (mono_valid_depths mono stereo) in
  let ds := zip_with Qminus (stereo_valid_depths mono stereo)
                            (mono_valid_depths mono stereo) in
  exists (min_r max_r max_abs : Q),
    compare_depth_maps np_sqrt (Some mono) (Some stereo)
    = Ok ([CHeader; CValidPixels (count_true (both_valid mono stereo));
           CRatio (Fin (Qmean rs)) (Fin (np_sqrt (Qvar rs)))
                  (Fin min_r) (Fin max_r);
           CDiff (Fin (Qmean ds)) (Fin (np_sqrt (Qvar ds))) (Fin max_abs);
           CLargeDiff
             (Fin (inject_Z (Z.of_nat
                               (count_true
                                  (map (fun d => Qgtb (Qabs d) 50) ds)))
                   / inject_Z (Z.of_nat (count_true (both_valid mono stereo)))
                   * 100))],
          Some {| mean_ratio := Fin (Qmean rs);
                  std_ratio := Fin (np_sqrt (Qvar rs));
                  mean_diff := Fin (Qmean ds);
                  std_diff := Fin (np_sqrt (Qvar ds));
                  max_diff := Fin max_abs;
                  large_diff_ratio :=
                    Fin (inject_Z (Z.of_nat
                                     (count_true
                                        (map (fun d => Qgtb (Qabs d) 50) ds)))
                         / inject_Z (Z.of_nat
                                       (count_true (both_valid mono stereo)))
                         * 100) |}).
Proof.
  intros Hshape Hn rs ds.
  pose proof (paired_nonempty Qdiv mono stereo Hn) as Hrs.
  pose proof (paired_nonempty Qminus mono stereo Hn) as Hds.
  destruct (np_min_Fin rs Hrs) as [min_r Hmin].
  destruct (np_max_Fin rs Hrs) as [max_r Hmax].
  assert (Habs : map Qabs ds <> []).
  { intros H. apply Hds, (map_eq_nil _ _ H). }
  destruct (np_max_Fin (map Qabs ds) Habs) as [max_abs Hmaxabs].
  exists min_r, max_r, max_abs.
  unfold compare_depth_maps.
  rewrite bool_decide_eq_false_2 by (intros H; apply H, Hshape).
  cbn [mbind result_bind].
  rewrite (proj2 (Nat.eqb_neq _ _) Hn).
  rewrite depth_ratios_Fin, depth_diffs_Fin. fold rs ds.
  rewrite Hmin, Hmax. cbn [mbind result_bind].
  rewrite !np_mean_Fin, !np_std_Fin by assumption.
  assert (E1 : map np_abs (map Fin ds) = map Fin (map Qabs ds))
    by (rewrite !map_map; reflexivity).
  assert (E2 : map (fun d => np_gtb (np_abs d) (Fin 50)) (map Fin ds)
               = map (fun d => Qgtb (Qabs d) 50) ds)
    by (rewrite map_map; reflexivity).
  rewrite E1, E2, Hmaxabs. cbn [mbind result_bind].
  unfold of_nat, np_div. rewrite (inject_nat_nonzero _ Hn).
  reflexivity.
Qed.

(** C10. On two maps of one shape with a jointly valid sample, every
    divisor of the ratio is a positive mono depth, every ratio is the finite
    quotient of the paired depths, and the comparison returns statistics of
    the ratio that are finite. *)
Theorem depth_ratios_finite (mono stereo : DepthMap) :
  shape mono = shape stereo ->
  count_true (both_valid mono stereo) <> O ->
  Forall (fun m => 0 < m) (mono_valid_depths mono stereo)
  /\ depth_ratios mono stereo
     = map Fin (zip_with Qdiv (stereo_valid_depths mono stereo)
                              (mono_valid_depths mono stereo))
  /\ Forall (fun r => is_finite r = true) (depth_ratios mono stereo)
  /\ exists (log : list CompareLine) (stats : ComparisonStats)
            (min_r max_r : Q),
      compare_depth_maps np_sqrt (Some mono) (Some stereo)
      = Ok (log, Some stats)
      /\ is_finite (mean_ratio stats) = true
      /\ is_finite (std_ratio stats) = true
      /\ In (CRatio (mean_ratio stats) (std_ratio stats)
                    (Fin min_r) (Fin max_r)) log.
Proof.
  intros Hshape Hn. split; [apply mono_valid_depths_pos |].
  split; [apply depth_ratios_Fin |]. split.
  - rewrite depth_ratios_Fin. apply Forall_map, Forall_forall. reflexivity.
  - destruct (compare_depth_maps_same_shape mono stereo Hshape Hn)
      as (min_r & max_r & max_abs & Hrun).
    rewrite Hrun. eexists _, _, min_r, max_r.
    split; [reflexivity |]. cbn [mean_ratio std_ratio is_finite].
    repeat split. cbn [In]. auto.
Qed.

End Comparison.

Lemma depth_ratios_finite_witness :
  Forall (fun m => 0 < m) (mono_valid_depths mono_example stereo_example)
  /\ Forall (fun r => is_finite r = true)
            (depth_ratios mono_example stereo_example).
Proof.
  destruct (depth_ratios_finite isqrt mono_example stereo_example)
    as (Hpos & _ & Hfin & _).
  - reflexivity.
  - discriminate.
  - split; assumption.
Defined.

(** ** Linear calibration *)

Lemma Qsum_pos (l : list Q) :
  l <> [] -> Forall (fun m => 0 < m) l -> 0 < Qsum l.
Proof.
  intros Hl H. destruct H as [|x l Hx Hrest]; [congruence |].
  change (0 < x + Qsum l). assert (0 <= Qsum l).
  { apply Qsum_nonneg. eapply Forall_impl; [apply Hrest |].
    intros y Hy. apply Qlt_le_weak, Hy. }
  lra.
Qed.

Lemma polyfit1_ok (x y : list Q) :
  x <> [] -> length x = length y -> Forall (fun m => 0 < m) x ->
  exists slope intercept : Q, polyfit1 x y = Ok (slope, intercept).
Proof.
  intros Hx Hlen Hpos. unfold polyfit1.
  destruct x as [|x0 x]; [congruence |]. cbn [length Nat.eqb].
  rewrite <- Hlen. cbn [length]. rewrite Nat.eqb_refl. cbn [negb].
  match goal with |- context [Qeq_bool ?d 0] => destruct (Qeq_bool d 0) end;
    [| eauto].
  assert (Hs : Qeq_bool (Qsum (x0 :: x)) 0 = false).
  { apply not_true_iff_false. intros H. apply Qeq_bool_iff in H.
    pose proof (Qsum_pos (x0 :: x) Hx Hpos) as Hp. rewrite H in Hp.
    apply (Qlt_irrefl 0 Hp). }
  rewrite Hs. eauto.
Qed.

Section Calibration.

Variable np_sqrt : Q -> Q.

(** The report of the fit once [np.polyfit] has returned. *)
Lemma analyze_calibration_quality_fit (mono stereo : DepthMap)
    (slope intercept : Q) :
  shape mono = shape stereo ->
  count_true (both_valid mono stereo) <> O ->
  polyfit1 (mono_valid_depths mono stereo) (stereo_valid_depths mono stereo)
  = Ok (slope, intercept) ->
  let residuals :=
    zip_with Qminus (stereo_valid_depths mono stereo)
             (map (fun m => slope * m + intercept)
                  (mono_valid_depths mono stereo)) in
  exists (log : list CalibrationLine) (max_e : Q),
    analyze_calibration_quality np_sqrt mono stereo None
    = Ok (log,
          Some {| scale_factor := Fin slope;
                  bias := Fin intercept;
                  rms_error :=
                    Fin (np_sqrt (Qmean (map Qsquare residuals)));
                  max_error := Fin max_e |}).
Proof.
  intros Hshape Hn Hfit residuals.
  assert (Hres : residuals <> []).
  { intros H. apply (f_equal length) in H. subst residuals.
    rewrite length_zip_with, length_map, stereo_valid_depths_length,
      mono_valid_depths_length in H. cbn in H. lia. }
  assert (Habs : map Qabs residuals <> [])
    by (intros H; apply Hres, (map_eq_nil _ _ H)).
  assert (Hsq : map Qsquare residuals <> [])
    by (intros H; apply Hres, (map_eq_nil _ _ H)).
  destruct (np_max_Fin _ Habs) as [max_e Hmax_e].
  destruct (np_min_Fin _ Hres) as [mn Hmn].
  destruct (np_max_Fin _ Hres) as [mx Hmx].
  unfold analyze_calibration_quality.
  rewrite bool_decide_eq_false_2 by (intros H; apply H, Hshape).
  rewrite (proj2 (Nat.eqb_neq _ _) Hn), Hfit.
  cbn [mbind result_bind fst snd]. fold residuals.
  assert (E1 : map (fun r => Fin (r * r)) residuals
               = map Fin (map Qsquare residuals))
    by (rewrite map_map; reflexivity).
  assert (E2 : map (fun r => Fin (Qabs r)) residuals
               = map Fin (map Qabs residuals))
    by (rewrite map_map; reflexivity).
  rewrite E1, E2, Hmax_e, Hmn, Hmx, (np_mean_Fin _ Hsq).
  cbn [mbind result_bind]. unfold np_sqrt_f.
  assert (Hnn : 0 <= Qmean (map Qsquare residuals)).
  { apply Qmean_nonneg, Forall_map, Forall_forall. intros r _.
    apply Qmult_self_nonneg. }
  rewrite (proj2 (Qltb_ge _ _) Hnn). eauto.
Qed.

(** C3, as the code has it.  On two maps of one shape the fit is withheld
    exactly when no sample is jointly valid; with at least one jointly valid
    sample (a single one, or mono depths that are all equal, included) a
    scale, a bias and the residual errors are returned. *)
Theorem analyze_calibration_quality_outcome (mono stereo : DepthMap) :
  shape mono = shape stereo ->
  (count_true (both_valid mono stereo) = O ->
   analyze_calibration_quality np_sqrt mono stereo None
   = Ok ([AHeader; ANoValidPixels], None))
  /\ (count_true (both_valid mono stereo) <> O ->
      exists (log : list CalibrationLine) (slope intercept rms max_e : Q),
        analyze_calibration_quality np_sqrt mono stereo None
        = Ok (log,
              Some {| scale_factor := Fin slope;
                      bias := Fin intercept;
                      rms_error := Fin rms;
                      max_error := Fin max_e |})).
Proof.
  intros Hshape. split.
  - intros Hz. unfold analyze_calibration_quality.
    rewrite bool_decide_eq_false_2 by (intros H; apply H, Hshape).
    rewrite Hz. reflexivity.
  - intros Hn.
    destruct (polyfit1_ok (mono_valid_depths mono stereo)
                          (stereo_valid_depths mono stereo))
      as (slope & intercept & Hfit).
    + intros H. apply (f_equal length) in H.
      rewrite mono_valid_depths_length in H. cbn in H. lia.
    + rewrite mono_valid_depths_length, stereo_valid_depths_length.
      reflexivity.
    + apply mono_valid_depths_pos.
    + destruct (analyze_calibration_quality_fit mono stereo slope intercept
                  Hshape Hn Hfit) as (log & max_e & Hrun).
      eauto 8.
Qed.

End Calibration.

Lemma analyze_calibration_quality_outcome_witness :
  analyze_calibration_quality isqrt [[0; -1]] [[5; 0]] None
  = Ok ([AHeader; ANoValidPixels], None)
  /\ exists (log : list CalibrationLine) (slope intercept rms max_e : Q),
      analyze_calibration_quality isqrt mono_example stereo_example None
      = Ok (log,
            Some {| scale_factor := Fin slope;
                    bias := Fin intercept;
                    rms_error := Fin rms;
                    max_error := Fin max_e |}).
Proof.
  split.
  - apply (analyze_calibration_quality_outcome isqrt [[0; -1]] [[5; 0]]);
      reflexivity.
  - apply (analyze_calibration_quality_outcome isqrt mono_example
             stereo_example); [reflexivity | discriminate].
Defined.

(** The claim C3 fails on a single jointly valid sample: the fit of
    [(100, 200)] is reported, with scale 1 and bias 100. *)
Lemma single_sample_fit_is_reported :
  (count_true (both_valid single_mono single_stereo) < 2)%nat
  /\ ~ reports_no_fit (analyze_calibration_quality isqrt single_mono single_stereo None)
  /\ exists log : list CalibrationLine,
      analyze_calibration_quality isqrt single_mono single_stereo None
      = Ok (log,
            Some {| scale_factor := Fin (200 # 200);
                    bias := Fin (200 # 2);
                    rms_error := Fin 0;
                    max_error := Fin (0 # 400) |}).
Proof.
  split; [vm_compute; lia |]. split.
  - vm_compute. tauto.
  - eexists. vm_compute. reflexivity.
Qed.

(** It fails as well on mono depths without variance. *)
Lemma zero_variance_fit_is_reported :
  ~ reports_no_fit
      (analyze_calibration_quality isqrt [[100; 100]] [[200; 220]] None).
Proof. vm_compute. tauto. Qed.

(** ** A map compared with itself *)

Lemma inject_nat_S (n : nat) :
  inject_Z (Z.of_nat (S n)) == inject_Z (Z.of_nat n) + 1.
Proof.
  rewrite Nat2Z.inj_succ. unfold Z.succ. rewrite inject_Z_plus. reflexivity.
Qed.

Lemma Qsum_const (c : Q) (l : list Q) :
  Forall (fun x => x == c) l ->
  Qsum l == inject_Z (Z.of_nat (length l)) * c.
Proof.
  induction 1 as [|x l Hx _ IH].
  - cbn. ring.
  - change (Qsum (x :: l)) with (x + Qsum l). cbn [length].
    rewrite inject_nat_S, IH, Hx. ring.
Qed.

Lemma Qmean_const (c : Q) (l : list Q) :
  l <> [] -> Forall (fun x => x == c) l -> Qmean l == c.
Proof.
  intros Hl H. unfold Qmean. rewrite (Qsum_const c l H).
  field. intros Hz.
  assert (Hp : 0 < inject_Z (Z.of_nat (length l)))
    by (apply inject_nat_pos; destruct l; [congruence | discriminate]).
  rewrite Hz in Hp. apply (Qlt_irrefl 0 Hp).
Qed.

Lemma Qmean_zero (l : list Q) : Forall (fun x => x == 0) l -> Qmean l == 0.
Proof.
  intros H. unfold Qmean. rewrite (Qsum_const 0 l H). unfold Qdiv. ring.
Qed.

Lemma Qvar_const (c : Q) (l : list Q) :
  l <> [] -> Forall (fun x => x == c) l -> Qvar l == 0.
Proof.
  intros Hl H. unfold Qvar. apply Qmean_zero, Forall_map.
  pose proof (Qmean_const c l Hl H) as Hm.
  eapply Forall_impl; [apply H |]. intros x Hx. cbn beta.
  rewrite Hx, Hm.
  assert (E : c - c == 0) by ring. rewrite E. reflexivity.
Qed.

Lemma zip_self_div (v : list Q) :
  Forall (fun m => 0 < m) v -> Forall (fun r => r == 1) (zip_with Qdiv v v).
Proof.
  induction 1 as [|x v Hx _ IH]; cbn [zip_with]; constructor; [| exact IH].
  field. intros Hz. rewrite Hz in Hx. apply (Qlt_irrefl 0 Hx).
Qed.

Lemma zip_self_minus (v : list Q) :
  Forall (fun d => d == 0) (zip_with Qminus v v).
Proof. induction v as [|x v IH]; cbn [zip_with]; constructor; [ring | exact IH]. Qed.

Lemma count_large_zero (l : list Q) :
  Forall (fun d => d == 0) l ->
  count_true (map (fun d => Qgtb (Qabs d) 50) l) = O.
Proof.
  induction 1 as [|d l Hd _ IH]; [reflexivity |].
  cbn [map]. rewrite count_true_cons, IH.
  destruct (Qgtb (Qabs d) 50) eqn:Hg; [| reflexivity].
  apply Qgtb_gt in Hg. rewrite Hd in Hg. discriminate Hg.
Qed.

Lemma count_both_valid_self (a : list Q) :
  Exists (fun d => 0 < d) a ->
  count_true (zip_with andb (map valid a) (map valid a)) <> O.
Proof.
  induction 1 as [d a Hd | d a _ IH]; cbn [map zip_with];
    rewrite count_true_cons.
  - apply Qgtb_gt in Hd. unfold valid. rewrite Hd. discriminate.
  - destruct (valid d && valid d); [discriminate | exact IH].
Qed.

Lemma in_select_self (x : Q) (a : list Q) :
  In x a -> 0 < x ->
  In x (select (zip_with andb (map valid a) (map valid a)) a).
Proof.
  intros Hin Hx. induction a as [|y a IH]; [destruct Hin |].
  cbn [map zip_with select]. destruct Hin as [-> | Hin].
  - apply Qgtb_gt in Hx. unfold valid. rewrite Hx. left. reflexivity.
  - destruct (valid y && valid y); [right |]; apply IH, Hin.
Qed.

(** *** The least-squares determinant

    [n * sum(x^2) - sum(x)^2] grows by the squared distances to the new
    sample; it is positive as soon as two samples differ. *)
Lemma Qsum_sqdist (a : Q) (l : list Q) :
  Qsum (map (fun x => (x - a) * (x - a)) l)
  == Qsum (map Qsquare l) - 2 * a * Qsum l
     + inject_Z (Z.of_nat (length l)) * (a * a).
Proof.
  induction l as [|x l IH].
  - cbn. ring.
  - cbn [map length].
    change (Qsum (?y :: ?t)) with (y + Qsum t).
    rewrite inject_nat_S, IH. unfold Qsquare. ring.
Qed.

Lemma lsq_det_cons (a : Q) (l : list Q) :
  inject_Z (Z.of_nat (length (a :: l))) * Qsum (map Qsquare (a :: l))
  - Qsum (a :: l) * Qsum (a :: l)
  == (inject_Z (Z.of_nat (length l)) * Qsum (map Qsquare l)
      - Qsum l * Qsum l)
     + Qsum (map (fun x => (x - a) * (x - a)) l).
Proof.
  rewrite Qsum_sqdist. cbn [map length].
  change (Qsum (?y :: ?t)) with (y + Qsum t).
  rewrite inject_nat_S. unfold Qsquare. ring.
Qed.

Lemma Qsum_sqdist_nonneg (a : Q) (l : list Q) :
  0 <= Qsum (map (fun x => (x - a) * (x - a)) l).
Proof.
  apply Qsum_nonneg, Forall_map, Forall_forall. intros x _.
  apply Qmult_self_nonneg.
Qed.

Lemma Qsum_sqdist_pos (a : Q) (l : list Q) :
  Exists (fun x => ~ x == a) l ->
  0 < Qsum (map (fun x => (x - a) * (x - a)) l).
Proof.
  induction 1 as [x l Hx | x l _ IH]; cbn [map];
    change (Qsum (?y :: ?t)) with (y + Qsum t).
  - pose proof (Qsum_sqdist_nonneg a l).
    assert (0 < (x - a) * (x - a)); [| lra].
    apply Qmult_self_pos. intros H0. apply Hx. lra.
  - pose proof (Qmult_self_nonneg (x - a)). lra.
Qed.

Lemma lsq_det_nonneg (l : list Q) :
  0 <= inject_Z (Z.of_nat (length l)) * Qsum (map Qsquare l)
       - Qsum l * Qsum l.
Proof.
  induction l as [|a l IH].
  - cbn. discriminate.
  - rewrite lsq_det_cons. pose proof (Qsum_sqdist_nonneg a l). lra.
Qed.

Lemma lsq_det_pos (l : list Q) :
  (exists a b : Q, In a l /\ In b l /\ ~ a == b) ->
  0 < inject_Z (Z.of_nat (length l)) * Qsum (map Qsquare l)
      - Qsum l * Qsum l.
Proof.
  intros (p & q & Hp & Hq & Hne). destruct l as [|a l]; [destruct Hp |].
  rewrite lsq_det_cons. pose proof (lsq_det_nonneg l) as Hnn.
  assert (Hex : Exists (fun x => ~ x == a) l).
  { destruct (Forall_Exists_dec (fun x => x == a) (fun x => ~ x == a)
                (fun x => Qeq_dec x a) l) as [Hall | Hex]; [| exact Hex].
    exfalso. apply Hne. rewrite Forall_forall in Hall.
    assert (Hpa : p == a)
      by (destruct Hp as [<- | Hp];
          [reflexivity | apply Hall, list_elem_of_In, Hp]).
    assert (Hqa : q == a)
      by (destruct Hq as [<- | Hq];
          [reflexivity | apply Hall, list_elem_of_In, Hq]).
    rewrite Hpa, Hqa. reflexivity. }
  pose proof (Qsum_sqdist_pos a l Hex). lra.
Qed.

Lemma zip_self_mult (v : list Q) : zip_with Qmult v v = map Qsquare v.
Proof. induction v as [|x v IH]; cbn; [| rewrite IH]; reflexivity. Qed.

(** The fit of a sample against itself is the identity line. *)
Lemma polyfit1_self (v : list Q) :
  (exists a b : Q, In a v /\ In b v /\ ~ a == b) ->
  exists slope intercept : Q,
    polyfit1 v v = Ok (slope, intercept) /\ slope == 1 /\ intercept == 0.
Proof.
  intros Hdist. pose proof (lsq_det_pos v Hdist) as Hd.
  assert (Hv : v <> []) by (destruct Hdist as (a & _ & Ha & _);
                            intros ->; destruct Ha).
  unfold polyfit1.
  assert (Hlen : (length v =? 0)%nat = false)
    by (apply Nat.eqb_neq; destruct v; [congruence | discriminate]).
  rewrite Hlen, Nat.eqb_refl, zip_self_mult. cbn [negb].
  set (n := inject_Z (Z.of_nat (length v))) in *.
  set (d := n * Qsum (map Qsquare v) - Qsum v * Qsum v) in *.
  assert (Hdz : ~ d == 0) by (intros H; rewrite H in Hd;
                              apply (Qlt_irrefl 0 Hd)).
  assert (Hnz : ~ n == 0).
  { intros H. assert (Hp : 0 < n)
      by (apply inject_nat_pos; destruct v; [congruence | discriminate]).
    rewrite H in Hp. apply (Qlt_irrefl 0 Hp). }
  assert (Hb : Qeq_bool d 0 = false)
    by (apply not_true_iff_false; intros H; apply Hdz, Qeq_bool_iff, H).
  rewrite Hb. eexists _, _. split; [reflexivity |].
  assert (Hs : d / d == 1) by (field; exact Hdz).
  split; [exact Hs |]. rewrite Hs. field. exact Hnz.
Qed.

Lemma residuals_identity (slope intercept : Q) (v : list Q) :
  slope == 1 -> intercept == 0 ->
  Forall (fun r => r == 0)
         (zip_with Qminus v (map (fun m => slope * m + intercept) v)).
Proof.
  intros Hs Hi. induction v as [|x v IH]; cbn [map zip_with]; constructor;
    [| exact IH].
  rewrite Hs, Hi. ring.
Qed.

Lemma isqrt_zero (q : Q) : q == 0 -> isqrt q == 0.
Proof. intros H. unfold isqrt. rewrite (Qfloor_comp _ _ H). reflexivity. Qed.

Section Identical.

Variable np_sqrt : Q -> Q.
Hypothesis np_sqrt_zero : forall q : Q, q == 0 -> np_sqrt q == 0.

(** C6. A depth map with a valid sample, compared with itself, has ratio
    mean 1, ratio standard deviation 0, mean difference 0 and
    large-difference percentage 0; when two of its valid samples differ the
    fitted scale is 1, the bias 0 and the RMS residual 0. *)
Theorem identical_depth_maps (dm : DepthMap) :
  Exists (fun d => 0 < d) (concat dm) ->
  (exists (log : list CompareLine) (stats : ComparisonStats)
          (ratio_mean ratio_std diff_mean large : Q),
      compare_depth_maps np_sqrt (Some dm) (Some dm) = Ok (log, Some stats)
      /\ mean_ratio stats = Fin ratio_mean /\ ratio_mean == 1
      /\ std_ratio stats = Fin ratio_std /\ ratio_std == 0
      /\ mean_diff stats = Fin diff_mean /\ diff_mean == 0
      /\ large_diff_ratio stats = Fin large /\ large == 0)
  /\ ((exists a b : Q,
          In a (concat dm) /\ In b (concat dm)
          /\ 0 < a /\ 0 < b /\ ~ a == b) ->
      exists (log : list CalibrationLine) (stats : CalibrationStats)
             (scale intercept rms : Q),
        analyze_calibration_quality np_sqrt dm dm None = Ok (log, Some stats)
        /\ scale_factor stats = Fin scale /\ scale == 1
        /\ bias stats = Fin intercept /\ intercept == 0
        /\ rms_error stats = Fin rms /\ rms == 0).
Proof.
  intros Hvalid.
  assert (Hn : count_true (both_valid dm dm) <> O)
    by apply count_both_valid_self, Hvalid.
  pose proof (mono_valid_depths_pos dm dm) as Hpos.
  split.
  - destruct (compare_depth_maps_same_shape np_sqrt dm dm eq_refl Hn)
      as (min_r & max_r & max_abs & Hrun).
    rewrite Hrun. eexists _, _, _, _, _, _. split; [reflexivity |].
    cbn [mean_ratio std_ratio mean_diff large_diff_ratio].
    pose proof (paired_nonempty Qdiv dm dm Hn) as Hrs.
    change (stereo_valid_depths dm dm) with (mono_valid_depths dm dm) in *.
    pose proof (zip_self_div _ Hpos) as Hone.
    pose proof (zip_self_minus (mono_valid_depths dm dm)) as Hzero.
    repeat split.
    + apply (Qmean_const 1 _ Hrs Hone).
    + apply np_sqrt_zero, (Qvar_const 1 _ Hrs Hone).
    + apply Qmean_zero, Hzero.
    + rewrite (count_large_zero _ Hzero). cbn [Z.of_nat]. unfold Qdiv. ring.
  - intros (a & b & Ha & Hb & Hapos & Hbpos & Hne).
    destruct (polyfit1_self (mono_valid_depths dm dm))
      as (slope & intercept & Hfit & Hs & Hi).
    { exists a, b. repeat split; try assumption;
        apply in_select_self; assumption. }
    destruct (analyze_calibration_quality_fit np_sqrt dm dm slope intercept
                eq_refl Hn Hfit) as (log & max_e & Hrun).
    rewrite Hrun. eexists _, _, _, _, _. split; [reflexivity |].
    cbn [scale_factor bias rms_error].
    repeat split; try assumption.
    apply np_sqrt_zero, Qmean_zero, Forall_map.
    change (stereo_valid_depths dm dm) with (mono_valid_depths dm dm).
    eapply Forall_impl; [apply (residuals_identity _ _ _ Hs Hi) |].
    intros r Hr. unfold Qsquare. rewrite Hr. reflexivity.
Qed.

End Identical.

Lemma identical_depth_maps_witness :
  (exists (log : list CompareLine) (stats : ComparisonStats)
          (ratio_mean ratio_std diff_mean large : Q),
      compare_depth_maps isqrt (Some quality_example) (Some quality_example)
      = Ok (log, Some stats)
      /\ mean_ratio stats = Fin ratio_mean /\ ratio_mean == 1
      /\ std_ratio stats = Fin ratio_std /\ ratio_std == 0
      /\ mean_diff stats = Fin diff_mean /\ diff_mean == 0
      /\ large_diff_ratio stats = Fin large /\ large == 0)
  /\ (exists (log : list CalibrationLine) (stats : CalibrationStats)
             (scale intercept rms : Q),
        analyze_calibration_quality isqrt quality_example quality_example None
        = Ok (log, Some stats)
        /\ scale_factor stats = Fin scale /\ scale == 1
        /\ bias stats = Fin intercept /\ intercept == 0
        /\ rms_error stats = Fin rms /\ rms == 0).
Proof.
  destruct (identical_depth_maps isqrt isqrt_zero quality_example)
    as [Hcmp Hfit].
  - constructor. reflexivity.
  - split; [exact Hcmp |]. apply Hfit. exists 100, 200.
    repeat split; cbn; try tauto. discriminate.
Defined.

(** ** The modal depth *)

Lemma argmax_scan_spec (t pre : list nat) (bi b : nat) :
  pre !! bi = Some b ->
  (forall j c, pre !! j = Some c -> (c <= b)%nat) ->
  (forall j c, (j < bi)%nat -> pre !! j = Some c -> (c < b)%nat) ->
  exists c : nat,
    (pre ++ t) !! argmax_scan t (length pre) bi b = Some c
    /\ (forall j c', (pre ++ t) !! j = Some c' -> (c' <= c)%nat)
    /\ (forall j c', (j < argmax_scan t (length pre) bi b)%nat ->
                     (pre ++ t) !! j = Some c' -> (c' < c)%nat).
Proof.
  revert pre bi b. induction t as [|x t IH]; intros pre bi b Hbi Hmax Hfirst.
  - cbn [argmax_scan]. rewrite app_nil_r. eauto.
  - cbn [argmax_scan].
    replace (pre ++ x :: t) with ((pre ++ [x]) ++ t)
      by (rewrite <- app_assoc; reflexivity).
    replace (S (length pre)) with (length (pre ++ [x]))
      by (rewrite length_app; cbn; lia).
    assert (Hlook : forall j c, (pre ++ [x]) !! j = Some c ->
                      pre !! j = Some c \/ (j = length pre /\ c = x)).
    { intros j c Hj. destruct (Nat.lt_ge_cases j (length pre)) as [Hlt | Hge].
      - rewrite lookup_app_l in Hj by exact Hlt. auto.
      - rewrite lookup_app_r in Hj by exact Hge.
        rewrite list_lookup_singleton in Hj.
        destruct (j - length pre)%nat eqn:E; [| discriminate].
        injection Hj as <-. right. split; [lia | reflexivity]. }
    destruct (Nat.ltb_spec b x) as [Hlt | Hge]; apply IH.
    + rewrite lookup_app_r by lia. rewrite Nat.sub_diag. reflexivity.
    + intros j c Hj. destruct (Hlook j c Hj) as [H | [_ ->]]; [| lia].
      specialize (Hmax j c H). lia.
    + intros j c Hlt' Hj. destruct (Hlook j c Hj) as [H | [-> _]]; [| lia].
      specialize (Hmax j c H). lia.
    + rewrite lookup_app_l by (apply lookup_lt_Some in Hbi; exact Hbi).
      exact Hbi.
    + intros j c Hj. destruct (Hlook j c Hj) as [H | [_ ->]]; [| lia].
      apply (Hmax j c H).
    + intros j c Hlt' Hj. destruct (Hlook j c Hj) as [H | [-> _]].
      * apply (Hfirst j c Hlt' H).
      * apply lookup_lt_Some in Hbi. lia.
Qed.

(** [np.argmax] returns the first index of the largest count. *)
Lemma np_argmax_spec (hist : list nat) :
  hist <> [] ->
  exists i c : nat,
    np_argmax hist = Ok i
    /\ hist !! i = Some c
    /\ (forall j c', hist !! j = Some c' -> (c' <= c)%nat)
    /\ (forall j c', (j < i)%nat -> hist !! j = Some c' -> (c' < c)%nat).
Proof.
  destruct hist as [|x t]; [congruence | intros _].
  destruct (argmax_scan_spec t [x] 0 x) as (c & H1 & H2 & H3).
  - reflexivity.
  - intros [|j] c Hj; [injection Hj as <-; lia | discriminate].
  - intros j c Hj. lia.
  - exists (argmax_scan t 1 0 x), c. cbn [np_argmax].
    change ([x] ++ t) with (x :: t) in *. change (length [x]) with 1%nat in *.
    auto.
Qed.

Module Histogram.
Import DepthCalibrationDiagnosis.

Lemma Qlist_min_le (x : Q) (t : list Q) : Qlist_min x t <= x.
Proof.
  unfold Qlist_min. revert x. induction t as [|y t IH]; intros x; cbn [foldl].
  - apply Qle_refl.
  - destruct (Qltb y x) eqn:H.
    + apply Qltb_lt in H. eapply Qle_trans; [apply IH |].
      apply Qlt_le_weak, H.
    + apply IH.
Qed.

Lemma Qlist_max_ge (x : Q) (t : list Q) : x <= Qlist_max x t.
Proof.
  unfold Qlist_max. revert x. induction t as [|y t IH]; intros x; cbn [foldl].
  - apply Qle_refl.
  - destruct (Qltb x y) eqn:H.
    + apply Qltb_lt in H. eapply Qle_trans; [| apply IH].
      apply Qlt_le_weak, H.
    + apply IH.
Qed.

(** The outer edges of a histogram are distinct, the left one first. *)
Lemma histogram_range_lt (a : list Q) :
  fst (histogram_range a) < snd (histogram_range a).
Proof.
  destruct a as [|x t]; [reflexivity |]. cbn [histogram_range].
  pose proof (Qlist_min_le x t) as Hmin.
  pose proof (Qlist_max_ge x t) as Hmax.
  destruct (Qeq_bool (Qlist_min x t) (Qlist_max x t)) eqn:E; cbn [fst snd].
  - lra.
  - apply Qeq_bool_neq in E.
    destruct (Qlt_le_dec (Qlist_min x t) (Qlist_max x t)) as [H | H];
      [exact H |].
    exfalso. apply E. lra.
Qed.

Lemma length_linspace (start stop : Q) (div : nat) :
  length (linspace start stop div) = S div.
Proof.
  unfold linspace. rewrite length_app, length_map, length_seq. cbn. lia.
Qed.

Lemma linspace_lookup_lt (start stop : Q) (div i : nat) :
  (i < div)%nat ->
  linspace start stop div !! i
  = Some (start + inject_Z (Z.of_nat i)
                  * ((stop - start) / inject_Z (Z.of_nat div))).
Proof.
  intros Hi. unfold linspace.
  rewrite lookup_app_l by (rewrite length_map, length_seq; exact Hi).
  change (map ?f ?l) with (f <$> l).
  rewrite list_lookup_fmap, lookup_seq_lt by exact Hi. reflexivity.
Qed.

Lemma linspace_lookup_last (start stop : Q) (div : nat) :
  linspace start stop div !! div = Some stop.
Proof.
  unfold linspace.
  rewrite lookup_app_r by (rewrite length_map, length_seq; lia).
  rewrite length_map, length_seq, Nat.sub_diag. reflexivity.
Qed.

(** The edges increase. *)
Lemma linspace_increasing (start stop : Q) (div i j : nat) (l r : Q) :
  start < stop -> (i < j)%nat ->
  linspace start stop div !! i = Some l ->
  linspace start stop div !! j = Some r ->
  l < r.
Proof.
  intros Hlt Hij Hi Hj.
  pose proof (lookup_lt_Some _ _ _ Hj) as Hjlen.
  rewrite length_linspace in Hjlen.
  assert (Hdiv : 0 < inject_Z (Z.of_nat div)) by (apply inject_nat_pos; lia).
  set (n := inject_Z (Z.of_nat div)) in *.
  assert (Hstep : 0 < (stop - start) / n).
  { apply Qlt_shift_div_l; [exact Hdiv | lra]. }
  rewrite linspace_lookup_lt in Hi by lia. injection Hi as <-.
  assert (Hinj : forall a b : nat, (a < b)%nat ->
             inject_Z (Z.of_nat a) < inject_Z (Z.of_nat b)).
  { intros a b Hab. rewrite <- Zlt_Qlt. lia. }
  destruct (Nat.eq_dec j div) as [-> | Hne].
  - rewrite linspace_lookup_last in Hj. injection Hj as <-.
    assert (E : stop == start + n * ((stop - start) / n))
      by (field; intros H0; rewrite H0 in Hdiv; apply (Qlt_irrefl 0 Hdiv)).
    rewrite E at 2. specialize (Hinj i div Hij). fold n in Hinj.
    apply Qplus_lt_r, Qmult_lt_compat_r; assumption.
  - rewrite linspace_lookup_lt in Hj by lia. injection Hj as <-.
    apply Qplus_lt_r, Qmult_lt_compat_r; [exact Hstep |].
    apply Hinj, Hij.
Qed.

Lemma np_histogram_shape (a : list Q) (n_bins : nat) :
  length (fst (np_histogram a n_bins)) = n_bins
  /\ length (snd (np_histogram a n_bins)) = S n_bins
  /\ forall (i j : nat) (l r : Q),
       (i < j)%nat ->
       snd (np_histogram a n_bins) !! i = Some l ->
       snd (np_histogram a n_bins) !! j = Some r ->
       l < r.
Proof.
  unfold np_histogram. pose proof (histogram_range_lt a) as Hlt.
  destruct (histogram_range a) as [first_edge last_edge]. cbn [fst snd] in *.
  split; [rewrite length_map, length_seq; reflexivity |].
  split; [apply length_linspace |].
  intros i j l r. apply linspace_increasing, Hlt.
Qed.

End Histogram.

Lemma select_valid_length (l : list Q) :
  length (select (map valid l) l) = count_true (map valid l).
Proof.
  induction l as [|x l IH]; [reflexivity |].
  cbn [map select]. rewrite count_true_cons.
  destruct (valid x); cbn [length]; rewrite IH; reflexivity.
Qed.

Lemma count_true_valid_some (l : list Q) :
  Exists (fun d => 0 < d) l -> count_true (map valid l) <> O.
Proof.
  induction 1 as [d l Hd | d l _ IH]; cbn [map]; rewrite count_true_cons.
  - apply Qgtb_gt in Hd. unfold valid. rewrite Hd. discriminate.
  - destruct (valid d); [discriminate | exact IH].
Qed.

Section Peak.

Variable np_sqrt : Q -> Q.
Variable Sobel : DepthMap -> nat -> nat -> Matrix.

(** C9. On a depth map with a valid sample the analyzer returns; the
    reported peak depth is the midpoint of bin [i] of the 50-bin histogram
    of the valid depths, where [i] holds the largest count and is the first
    index to do so; every later bin lies at a greater depth. *)
Theorem peak_depth_modal_bin (dm : DepthMap) :
  Exists (fun d => 0 < d) (concat dm) ->
  let valid_depths := select (map valid (concat dm)) (concat dm) in
  let hist := fst (np_histogram valid_depths 50) in
  let bins := snd (np_histogram valid_depths 50) in
  exists (log : list QualityLine) (stats : QualityStats)
         (i c : nat) (left_edge right_edge : Q),
    analyze_depth_quality np_sqrt Sobel (Some dm) = Ok (log, Some stats)
    /\ In (QPeakDepth (peak_depth stats)) log
    /\ length hist = 50%nat
    /\ hist !! i = Some c
    /\ (forall j c', hist !! j = Some c' -> (c' <= c)%nat)
    /\ (forall j c', (j < i)%nat -> hist !! j = Some c' -> (c' < c)%nat)
    /\ bins !! i = Some left_edge
    /\ bins !! S i = Some right_edge
    /\ peak_depth stats = Fin ((left_edge + right_edge) / 2)
    /\ (forall j l r, (i < j)%nat ->
          bins !! j = Some l -> bins !! S j = Some r ->
          (left_edge + right_edge) / 2 < (l + r) / 2).
Proof.
  intros Hvalid valid_depths hist bins.
  pose proof (count_true_valid_some _ Hvalid) as Hn.
  assert (Hvd : valid_depths <> []).
  { intros H. apply (f_equal length) in H. subst valid_depths.
    rewrite select_valid_length in H. cbn in H. lia. }
  destruct (np_min_Fin _ Hvd) as [mn Hmn].
  destruct (np_max_Fin _ Hvd) as [mx Hmx].
  destruct (Histogram.np_histogram_shape valid_depths 50)
    as (Hlen_hist & Hlen_bins & Hinc).
  fold hist in Hlen_hist. fold bins in Hlen_bins, Hinc.
  destruct (np_argmax_spec hist) as (i & c & Harg & Hi & Hmax & Hfirst).
  { intros H. rewrite H in Hlen_hist. discriminate Hlen_hist. }
  pose proof (lookup_lt_Some _ _ _ Hi) as Hi50. rewrite Hlen_hist in Hi50.
  destruct (lookup_lt_is_Some_2 bins i) as [left_edge Hleft];
    [rewrite Hlen_bins; lia |].
  destruct (lookup_lt_is_Some_2 bins (S i)) as [right_edge Hright];
    [rewrite Hlen_bins; lia |].
  unfold analyze_depth_quality.
  rewrite (proj2 (Nat.eqb_neq _ _) Hn).
  fold valid_depths. rewrite Hmn, Hmx. cbn [mbind result_bind].
  rewrite (surjective_pairing (np_histogram valid_depths 50)).
  fold hist bins. rewrite Harg. cbn [mbind result_bind].
  unfold index. rewrite Nat.add_1_r, Hleft, Hright.
  cbn [mbind result_bind].
  eexists _, _, i, c, left_edge, right_edge.
  split; [reflexivity |]. cbn [peak_depth].
  split; [rewrite !in_app_iff; cbn [In]; auto |].
  repeat (split; [assumption || reflexivity |]).
  intros j l r Hij Hl Hr.
  assert (left_edge < l) by (apply (Hinc i j); assumption).
  assert (right_edge < r) by (apply (Hinc (S i) (S j)); [lia | assumption ..]).
  apply Qmult_lt_compat_r; [reflexivity | lra].
Qed.

End Peak.

(** The valid depths 100, 200, 200 span the bins of width 2 from 100 to
    200; the last bin holds two of them and its midpoint is 199. *)
Example quality_example_peak :
  exists (log : list QualityLine) (stats : QualityStats) (peak : Q),
    analyze_depth_quality isqrt (fun d _ _ => d) (Some quality_example)
    = Ok (log, Some stats)
    /\ peak_depth stats = Fin peak /\ peak == 199.
Proof.
  eexists _, _, _. split; [vm_compute; reflexivity |].
  split; reflexivity.
Qed.

Lemma peak_depth_modal_bin_witness :
  exists (log : list QualityLine) (stats : QualityStats),
    analyze_depth_quality isqrt (fun d _ _ => d) (Some quality_example)
    = Ok (log, Some stats)
    /\ In (QPeakDepth (peak_depth stats)) log.
Proof.
  destruct (peak_depth_modal_bin isqrt (fun d _ _ => d) quality_example)
    as (log & stats & i & c & l & r & Hrun & Hin & _).
  - constructor. reflexivity.
  - exists log, stats. split; assumption.
Defined.

(** ** Resampling *)

Lemma linear_taps_weights (ssize dsize d s : nat) (w : Q) :
  In (s, w) (linear_taps ssize dsize d) -> 0 <= w.
Proof.
  unfold linear_taps.
  set (f := (inject_Z (Z.of_nat d) + (1 # 2))
            * (inject_Z (Z.of_nat ssize) / inject_Z (Z.of_nat dsize))
            - (1 # 2)).
  pose proof (Qfloor_le f) as Hlo. pose proof (Qlt_floor f) as Hhi.
  rewrite inject_Z_plus in Hhi. change (inject_Z 1) with 1 in Hhi.
  clearbody f.
  destruct (Qfloor f <? 0)%Z; [| destruct (Z.of_nat ssize - 1 <=? Qfloor f)%Z];
    cbn [In]; intros H;
    repeat (destruct H as [H | H]; [injection H as _ <-; lra |]);
    destruct H.
Qed.

Lemma pixel_taps_weights (src : Matrix) (dsize : nat * nat)
    (dy dx sy sx : nat) (w : Q) :
  In (sy, sx, w) (pixel_taps src dsize dy dx) -> 0 <= w.
Proof.
  unfold pixel_taps. destruct (shape src) as [rows cols].
  destruct dsize as [dwidth dheight].
  rewrite in_flat_map. intros ([ty wy] & Hy & Hin).
  rewrite in_map_iff in Hin. destruct Hin as ([tx wx] & Heq & Hx).
  injection Heq as _ _ <-.
  apply Qmult_le_0_compat; eapply linear_taps_weights; eassumption.
Qed.

Lemma Qsum_nonpos (l : list Q) : Forall (fun x => x <= 0) l -> Qsum l <= 0.
Proof.
  induction 1 as [|x l Hx _ IH]; [apply Qle_refl |].
  change (x + Qsum l <= 0). lra.
Qed.

Lemma weighted_sum_nonpositive (src : Matrix)
    (taps : list (nat * nat * Q)) :
  (forall sy sx w, In (sy, sx, w) taps -> 0 <= w) ->
  (forall sy sx w, In (sy, sx, w) taps -> entry src sy sx <= 0) ->
  Qsum (map (fun '(sy, sx, w) => w * entry src sy sx) taps) <= 0.
Proof.
  intros Hw Hinvalid. apply Qsum_nonpos, Forall_map, Forall_forall.
  intros [[sy sx] w] Hin. apply list_elem_of_In in Hin.
  specialize (Hw sy sx w Hin). specialize (Hinvalid sy sx w Hin). nra.
Qed.

(** C2, as the code has it.  The resize interpolates: every destination
    pixel is a sum of source samples with non-negative weights, so it is
    non-positive when every sample it reads is non-positive. *)
Theorem resize_pixel_nonpositive (src : Matrix) (dsize : nat * nat)
    (dy dx : nat) :
  (forall (sy sx : nat) (w : Q),
      In (sy, sx, w) (pixel_taps src dsize dy dx) -> entry src sy sx <= 0) ->
  (forall (sy sx : nat) (w : Q),
      In (sy, sx, w) (pixel_taps src dsize dy dx) -> 0 <= w)
  /\ resize_pixel src dsize dy dx <= 0.
Proof.
  intros Hinvalid. split; [intros sy sx w; apply pixel_taps_weights |].
  apply weighted_sum_nonpositive; [| exact Hinvalid].
  intros sy sx w. apply pixel_taps_weights.
Qed.

Lemma entry_nonpositive (src : Matrix) (sy sx : nat) :
  Forall (Forall (fun d => d <= 0)) src -> entry src sy sx <= 0.
Proof.
  intros Hall. unfold entry. destruct (src !! sy) as [row|] eqn:Hrow;
    cbn; [| discriminate].
  destruct (row !! sx) as [v|] eqn:Hv; cbn; [| discriminate].
  rewrite Forall_forall in Hall.
  specialize (Hall row (list_elem_of_lookup_2 _ _ _ Hrow)).
  rewrite Forall_forall in Hall.
  apply (Hall v (list_elem_of_lookup_2 _ _ _ Hv)).
Qed.

(** A map without a valid sample has none after the resize. *)
Lemma cv2_resize_all_invalid (src out : Matrix) (dsize : nat * nat) :
  Forall (Forall (fun d => d <= 0)) src ->
  cv2_resize src dsize = Ok out ->
  Forall (Forall (fun d => d <= 0)) out.
Proof.
  intros Hall. unfold cv2_resize. destruct (shape src) as [rows cols].
  destruct dsize as [dwidth dheight].
  destruct (_ || _); [discriminate |]. intros H. injection H as <-.
  apply Forall_map, Forall_forall. intros dy _.
  apply Forall_map, Forall_forall. intros dx _.
  apply weighted_sum_nonpositive.
  - intros sy sx w. apply pixel_taps_weights.
  - intros sy sx w _. apply entry_nonpositive, Hall.
Qed.

Lemma resize_pixel_nonpositive_witness :
  resize_pixel [[0; -1]; [0; 0]] (3, 3)%nat 1 1 <= 0.
Proof.
  apply (resize_pixel_nonpositive [[0; -1]; [0; 0]] (3, 3)%nat 1 1).
  intros sy sx w Hin. vm_compute in Hin.
  repeat (destruct Hin as [Hin | Hin];
          [injection Hin as <- <- _; vm_compute; discriminate |]).
  destruct Hin.
Defined.

(** The claim C2 fails when an invalid sample sits next to a valid one:
    shrinking [[0, 100]] to one pixel gives 50, and the comparison then
    counts that pixel as jointly valid. *)
Lemma resize_blends_invalid_sample :
  ~ sentinel_preserved half_valid_row (1, 1)%nat
  /\ (exists q : Q,
        cv2_resize half_valid_row (1, 1)%nat = Ok [[q]] /\ q == 50)
  /\ exists (log : list CompareLine) (stats : ComparisonStats),
      compare_depth_maps isqrt (Some [[50]]) (Some half_valid_row)
      = Ok (CHeader :: CShapeMismatch (1, 1)%nat (1, 2)%nat
              :: CValidPixels 1 :: log,
            Some stats).
Proof.
  split; [| split].
  - intros H. specialize (H O O O O (2 # 4)). vm_compute in H.
    apply H; auto; discriminate.
  - eexists. split; [vm_compute; reflexivity | reflexivity].
  - eexists _, _. vm_compute. reflexivity.
Qed.

(** ** Recommendations *)

Lemma np_gtb_Fin (a b : Q) : np_gtb (Fin a) (Fin b) = true <-> b < a.
Proof. apply Qgtb_gt. Qed.

Lemma py_max_Qmax (a b : Q) : py_max a b == Qmax a b.
Proof.
  unfold py_max. destruct (Qgtb b a) eqn:H.
  - apply Qgtb_gt in H. symmetry. apply Q.max_r. apply Qlt_le_weak, H.
  - apply Qltb_ge in H. symmetry. apply Q.max_l, H.
Qed.

Lemma py_max_f_Fin (a b : Q) : py_max_f (Fin a) (Fin b) = Fin (py_max a b).
Proof. unfold py_max_f, py_max, np_gtb. destruct (Qgtb b a); reflexivity. Qed.

(** C4. Each rule reads its own key and fires exactly when the value
    exceeds its fixed threshold: a standard deviation of the ratio above 0.2
    suggests the distance threshold [max(5.0, std_ratio * 100)], a
    large-difference percentage above 20 suggests outlier detection with
    threshold 2.0, an RMS error above 20 suggests layered calibration with 5
    layers. *)
Theorem suggest_calibration_parameters_rules
    (analysis_results : gmap string npfloat) :
  let out := suggest_calibration_parameters analysis_results in
  (forall t : npfloat,
      In (LowerRansacThreshold t) out <->
      exists std_ratio : npfloat,
        analysis_results !! "std_ratio" = Some std_ratio
        /\ np_gtb std_ratio (Fin (2 # 10)) = true
        /\ t = py_max_f (Fin 5) (np_mul std_ratio (Fin 100)))
  /\ (forall threshold : Q,
      In (EnableOutlierDetection threshold) out <->
      threshold = 2
      /\ exists large_diff_ratio : npfloat,
        analysis_results !! "large_diff_ratio" = Some large_diff_ratio
        /\ np_gtb large_diff_ratio (Fin 20) = true)
  /\ (forall layers : nat,
      In (EnableLayeredCalibration layers) out <->
      layers = 5%nat
      /\ exists rms_error : npfloat,
        analysis_results !! "rms_error" = Some rms_error
        /\ np_gtb rms_error (Fin 20) = true).
Proof.
  unfold suggest_calibration_parameters.
  destruct (analysis_results !! "std_ratio") as [s|];
    [destruct (np_gtb s (Fin (2 # 10))) eqn:Hs |];
    (destruct (analysis_results !! "large_diff_ratio") as [r|];
     [destruct (np_gtb r (Fin 20)) eqn:Hr |]);
    (destruct (analysis_results !! "rms_error") as [e|];
     [destruct (np_gtb e (Fin 20)) eqn:He |]);
    cbn [app In]; repeat split; intros;
    repeat match goal with
      | H : _ \/ _ |- _ => destruct H
      | H : False |- _ => destruct H
      | H : _ /\ _ |- _ => destruct H
      | H : exists _, _ |- _ => destruct H
      | H : Some _ = Some _ |- _ => injection H as H; subst
      | H : None = Some _ |- _ => discriminate H
      | H : ?c _ = ?d |- _ => discriminate H
      | H : ?c _ = ?d _ |- _ => first [discriminate H | injection H as H; subst]
      end;
    try congruence; eauto 8.
Qed.

End DepthCalibrationDiagnosisSpec.

Module DepthAnalysisSpec.
Import DepthAnalysis.

Section Loader.

Variable py_float : string -> result Q.



End Loader.


End DepthAnalysisSpec.

(* ================================================================== *)
(** * Further properties of the depth diagnosis *)

Module DepthCalibrationDiagnosisFacts.
Import DepthCalibrationDiagnosis DepthCalibrationDiagnosisSpec.

(** ** Extremes of the valid depths *)

Lemma np_min_exact (x : Q) (t : list Q) :
  np_min (map Fin (x :: t)) = Ok (Fin (Qlist_min x t)).
Proof.
  cbn [map np_min]. f_equal. unfold Qlist_min.
  revert x. induction t as [|y t IH]; intros x; cbn [map foldl];
    [reflexivity |].
  rewrite <- IH. f_equal.
  unfold np_minimum, np_ltb, np_gtb, Qgtb. destruct (Qltb y x); reflexivity.
Qed.

Lemma np_max_exact (x : Q) (t : list Q) :
  np_max (map Fin (x :: t)) = Ok (Fin (Qlist_max x t)).
Proof.
  cbn [map np_max]. f_equal. unfold Qlist_max.
  revert x. induction t as [|y t IH]; intros x; cbn [map foldl];
    [reflexivity |].
  rewrite <- IH. f_equal.
  unfold np_maximum, np_gtb, Qgtb. destruct (Qltb x y); reflexivity.
Qed.

Lemma Qlist_min_lower (x : Q) (t : list Q) :
  Forall (fun y => Qlist_min x t <= y) (x :: t).
Proof.
  constructor; [apply Histogram.Qlist_min_le |].
  unfold Qlist_min. revert x. induction t as [|y t IH]; intros x;
    [constructor |].
  cbn [foldl]. constructor.
  - eapply Qle_trans; [apply (Histogram.Qlist_min_le _ t) |].
    destruct (Qltb y x) eqn:H; [apply Qle_refl | apply Qltb_ge, H].
  - apply IH.
Qed.

Lemma Qlist_max_upper (x : Q) (t : list Q) :
  Forall (fun y => y <= Qlist_max x t) (x :: t).
Proof.
  constructor; [apply Histogram.Qlist_max_ge |].
  unfold Qlist_max. revert x. induction t as [|y t IH]; intros x;
    [constructor |].
  cbn [foldl]. constructor.
  - eapply Qle_trans; [| apply (Histogram.Qlist_max_ge _ t)].
    destruct (Qltb x y) eqn:H; [apply Qle_refl | apply Qltb_ge, H].
  - apply IH.
Qed.

Lemma Qlist_min_in (x : Q) (t : list Q) : In (Qlist_min x t) (x :: t).
Proof.
  unfold Qlist_min. revert x. induction t as [|y t IH]; intros x;
    cbn [foldl]; [left; reflexivity |].
  destruct (Qltb y x).
  - right. apply IH.
  - destruct (IH x) as [H | H]; [left; exact H | right; right; exact H].
Qed.

Lemma Qlist_max_in (x : Q) (t : list Q) : In (Qlist_max x t) (x :: t).
Proof.
  unfold Qlist_max. revert x. induction t as [|y t IH]; intros x;
    cbn [foldl]; [left; reflexivity |].
  destruct (Qltb x y).
  - right. apply IH.
  - destruct (IH x) as [H | H]; [left; exact H | right; right; exact H].
Qed.

Lemma np_min_of (l : list Q) :
  l <> [] -> np_min (map Fin l) = Ok (Fin (Qmin_of l)).
Proof. destruct l; [congruence | intros _; apply np_min_exact]. Qed.

Lemma np_max_of (l : list Q) :
  l <> [] -> np_max (map Fin l) = Ok (Fin (Qmax_of l)).
Proof. destruct l; [congruence | intros _; apply np_max_exact]. Qed.

Lemma Qmin_of_lower (l : list Q) : Forall (fun y => Qmin_of l <= y) l.
Proof. destruct l; [constructor | apply Qlist_min_lower]. Qed.

Lemma Qmax_of_upper (l : list Q) : Forall (fun y => y <= Qmax_of l) l.
Proof. destruct l; [constructor | apply Qlist_max_upper]. Qed.

Lemma Qmin_of_in (l : list Q) : l <> [] -> In (Qmin_of l) l.
Proof. destruct l; [congruence | intros _; apply Qlist_min_in]. Qed.

Lemma Qmax_of_in (l : list Q) : l <> [] -> In (Qmax_of l) l.
Proof. destruct l; [congruence | intros _; apply Qlist_max_in]. Qed.

Lemma Qsum_lower (a : Q) (l : list Q) :
  Forall (fun y => a <= y) l -> inject_Z (Z.of_nat (length l)) * a <= Qsum l.
Proof.
  induction 1 as [|y l Hy _ IH].
  - change (0 * a <= 0). lra.
  - cbn [length]. change (Qsum (y :: l)) with (y + Qsum l).
    rewrite inject_nat_S. lra.
Qed.

Lemma Qsum_upper (a : Q) (l : list Q) :
  Forall (fun y => y <= a) l -> Qsum l <= inject_Z (Z.of_nat (length l)) * a.
Proof.
  induction 1 as [|y l Hy _ IH].
  - change (0 <= 0 * a). lra.
  - cbn [length]. change (Qsum (y :: l)) with (y + Qsum l).
    rewrite inject_nat_S. lra.
Qed.

Lemma Qmean_bounds (l : list Q) :
  l <> [] -> Qmin_of l <= Qmean l /\ Qmean l <= Qmax_of l.
Proof.
  intros Hl.
  assert (Hn : 0 < inject_Z (Z.of_nat (length l)))
    by (apply inject_nat_pos; destruct l; [congruence | discriminate]).
  unfold Qmean. split.
  - apply Qle_shift_div_l; [exact Hn |].
    rewrite Qmult_comm. apply Qsum_lower, Qmin_of_lower.
  - apply Qle_shift_div_r; [exact Hn |].
    rewrite Qmult_comm. apply Qsum_upper, Qmax_of_upper.
Qed.

Lemma valid_depths_pos (dm : DepthMap) :
  Forall (fun d => 0 < d) (valid_depths dm).
Proof.
  unfold valid_depths. induction (concat dm) as [|x l IH]; [constructor |].
  cbn [map select]. destruct (valid x) eqn:Hx; [| exact IH].
  constructor; [apply Qgtb_gt, Hx | exact IH].
Qed.

Lemma valid_depths_nonempty (dm : DepthMap) :
  Exists (fun d => 0 < d) (concat dm) -> valid_depths dm <> [].
Proof.
  intros Hvalid H. apply (f_equal length) in H. unfold valid_depths in H.
  rewrite select_valid_length in H.
  apply (count_true_valid_some _ Hvalid). exact H.
Qed.

Lemma count_true_le (mask : list bool) :
  (count_true mask <= length mask)%nat.
Proof.
  induction mask as [|b mask IH]; [reflexivity |].
  rewrite count_true_cons. destruct b; cbn [length]; lia.
Qed.

(** ** The statistics of one map *)

Section QualityStatistics.

Variable np_sqrt : Q -> Q.
Variable Sobel : DepthMap -> nat -> nat -> Matrix.

(** The dictionary returned for a map with a valid sample, field by
    field. *)
Lemma analyze_depth_quality_stats (dm : DepthMap) :
  Exists (fun d => 0 < d) (concat dm) ->
  exists (log : list QualityLine) (i : nat) (left_edge right_edge : Q),
    analyze_depth_quality np_sqrt Sobel (Some dm)
    = Ok (log,
          Some {| valid_ratio :=
                    Fin (inject_Z (Z.of_nat
                                     (count_true (map valid (concat dm))))
                         / inject_Z (Z.of_nat (length (concat dm))) * 100);
                  min_depth := Fin (Qmin_of (valid_depths dm));
                  max_depth := Fin (Qmax_of (valid_depths dm));
                  mean_depth := Fin (Qmean (valid_depths dm));
                  std_depth := Fin (np_sqrt (Qvar (valid_depths dm)));
                  peak_depth := Fin ((left_edge + right_edge) / 2) |})
    /\ (i < 50)%nat
    /\ snd (np_histogram (valid_depths dm) 50) !! i = Some left_edge
    /\ snd (np_histogram (valid_depths dm) 50) !! S i = Some right_edge.
Proof.
  intros Hvalid.
  pose proof (count_true_valid_some _ Hvalid) as Hn.
  pose proof (valid_depths_nonempty dm Hvalid) as Hvd.
  assert (Htotal : length (concat dm) <> O).
  { pose proof (count_true_le (map valid (concat dm))) as Hle.
    rewrite length_map in Hle. lia. }
  destruct (Histogram.np_histogram_shape (valid_depths dm) 50)
    as (Hlen_hist & Hlen_bins & _).
  destruct (np_argmax_spec (fst (np_histogram (valid_depths dm) 50)))
    as (i & c & Harg & Hi & _ & _).
  { intros H. rewrite H in Hlen_hist. discriminate Hlen_hist. }
  pose proof (lookup_lt_Some _ _ _ Hi) as Hi50. rewrite Hlen_hist in Hi50.
  destruct (lookup_lt_is_Some_2 (snd (np_histogram (valid_depths dm) 50)) i)
    as [left_edge Hleft]; [rewrite Hlen_bins; lia |].
  destruct (lookup_lt_is_Some_2 (snd (np_histogram (valid_depths dm) 50))
              (S i)) as [right_edge Hright]; [rewrite Hlen_bins; lia |].
  unfold analyze_depth_quality.
  rewrite (proj2 (Nat.eqb_neq _ _) Hn).
  fold (valid_depths dm).
  rewrite (np_min_of _ Hvd), (np_max_of _ Hvd), (np_mean_Fin _ Hvd),
    (np_std_Fin np_sqrt _ Hvd).
  cbn [mbind result_bind].
  rewrite (surjective_pairing (np_histogram (valid_depths dm) 50)).
  rewrite Harg. cbn [mbind result_bind].
  unfold index. rewrite Nat.add_1_r, Hleft, Hright.
  cbn [mbind result_bind].
  unfold of_nat, np_div, np_mul. rewrite (inject_nat_nonzero _ Htotal).
  eexists _, i, left_edge, right_edge. repeat split; try assumption.
Qed.

(** X1. On a map with a valid sample the reported validity percentage lies
    in (0, 100]. *)
Theorem valid_ratio_is_a_percentage (dm : DepthMap) :
  Exists (fun d => 0 < d) (concat dm) ->
  exists (log : list QualityLine) (stats : QualityStats) (ratio : Q),
    analyze_depth_quality np_sqrt Sobel (Some dm) = Ok (log, Some stats)
    /\ valid_ratio stats = Fin ratio
    /\ 0 < ratio /\ ratio <= 100.
Proof.
  intros Hvalid.
  destruct (analyze_depth_quality_stats dm Hvalid)
    as (log & i & l & r & Hrun & _).
  eexists _, _, _. split; [exact Hrun |]. cbn [valid_ratio].
  split; [reflexivity |].
  pose proof (count_true_valid_some _ Hvalid) as Hn.
  pose proof (count_true_le (map valid (concat dm))) as Hle.
  rewrite length_map in Hle.
  set (c := count_true (map valid (concat dm))) in *.
  set (n := length (concat dm)) in *.
  assert (Hc : 0 < inject_Z (Z.of_nat c)) by (apply inject_nat_pos, Hn).
  assert (Hnpos : 0 < inject_Z (Z.of_nat n)) by (apply inject_nat_pos; lia).
  assert (Hcn : inject_Z (Z.of_nat c) <= inject_Z (Z.of_nat n))
    by (rewrite <- Zle_Qle; lia).
  assert (Hq : 0 < inject_Z (Z.of_nat c) / inject_Z (Z.of_nat n))
    by (apply Qlt_shift_div_l; [exact Hnpos | lra]).
  assert (Hq1 : inject_Z (Z.of_nat c) / inject_Z (Z.of_nat n) <= 1)
    by (apply Qle_shift_div_r; [exact Hnpos | lra]).
  split; lra.
Qed.

(** X2. On a map with a valid sample the reported minimum is a positive
    depth, and the mean lies between the minimum and the maximum. *)
Theorem depth_statistics_are_ordered (dm : DepthMap) :
  Exists (fun d => 0 < d) (concat dm) ->
  exists (log : list QualityLine) (stats : QualityStats)
         (lowest mean highest : Q),
    analyze_depth_quality np_sqrt Sobel (Some dm) = Ok (log, Some stats)
    /\ min_depth stats = Fin lowest
    /\ mean_depth stats = Fin mean
    /\ max_depth stats = Fin highest
    /\ 0 < lowest /\ lowest <= mean /\ mean <= highest.
Proof.
  intros Hvalid.
  destruct (analyze_depth_quality_stats dm Hvalid)
    as (log & i & l & r & Hrun & _).
  pose proof (valid_depths_nonempty dm Hvalid) as Hvd.
  eexists _, _, _, _, _. split; [exact Hrun |].
  cbn [min_depth mean_depth max_depth].
  repeat (split; [reflexivity |]).
  destruct (Qmean_bounds _ Hvd) as [Hlo Hhi].
  repeat split; try assumption.
  pose proof (valid_depths_pos dm) as Hpos.
  rewrite Forall_forall in Hpos.
  apply Hpos, list_elem_of_In, Qmin_of_in, Hvd.
Qed.

End QualityStatistics.

Lemma valid_ratio_is_a_percentage_witness :
  exists (log : list QualityLine) (stats : QualityStats) (ratio : Q),
    analyze_depth_quality isqrt (fun d _ _ => d) (Some quality_example)
    = Ok (log, Some stats)
    /\ valid_ratio stats = Fin ratio
    /\ 0 < ratio /\ ratio <= 100.
Proof.
  apply (valid_ratio_is_a_percentage isqrt (fun d _ _ => d) quality_example).
  constructor. reflexivity.
Defined.

Lemma depth_statistics_are_ordered_witness :
  exists (log : list QualityLine) (stats : QualityStats)
         (lowest mean highest : Q),
    analyze_depth_quality isqrt (fun d _ _ => d) (Some quality_example)
    = Ok (log, Some stats)
    /\ min_depth stats = Fin lowest
    /\ mean_depth stats = Fin mean
    /\ max_depth stats = Fin highest
    /\ 0 < lowest /\ lowest <= mean /\ mean <= highest.
Proof.
  apply (depth_statistics_are_ordered isqrt (fun d _ _ => d) quality_example).
  constructor. reflexivity.
Defined.

Lemma in_valid_depths (x : Q) (dm : DepthMap) :
  In x (concat dm) -> 0 < x -> In x (valid_depths dm).
Proof.
  unfold valid_depths. intros Hin Hx.
  induction (concat dm) as [|y l IH]; [destruct Hin |].
  cbn [map select]. destruct Hin as [-> | Hin].
  - apply Qgtb_gt in Hx. unfold valid. rewrite Hx. left. reflexivity.
  - destruct (valid y); [right |]; apply IH, Hin.
Qed.

Lemma Qmin_lt_max (l : list Q) :
  (exists a b : Q, In a l /\ In b l /\ ~ a == b) -> Qmin_of l < Qmax_of l.
Proof.
  intros (a & b & Ha & Hb & Hne).
  pose proof (Qmin_of_lower l) as Hlo. pose proof (Qmax_of_upper l) as Hhi.
  rewrite Forall_forall in Hlo, Hhi.
  pose proof (Hlo a (proj2 (list_elem_of_In _ _) Ha)) as H1.
  pose proof (Hlo b (proj2 (list_elem_of_In _ _) Hb)) as H2.
  pose proof (Hhi a (proj2 (list_elem_of_In _ _) Ha)) as H3.
  pose proof (Hhi b (proj2 (list_elem_of_In _ _) Hb)) as H4.
  destruct (Qlt_le_dec (Qmin_of l) (Qmax_of l)) as [H | H]; [exact H |].
  exfalso. apply Hne. lra.
Qed.

Lemma histogram_range_spread (l : list Q) :
  Qmin_of l < Qmax_of l -> histogram_range l = (Qmin_of l, Qmax_of l).
Proof.
  destruct l as [|x t]; [intros H; discriminate H |].
  cbn [Qmin_of Qmax_of histogram_range]. intros Hlt.
  destruct (Qeq_bool (Qlist_min x t) (Qlist_max x t)) eqn:E; [| reflexivity].
  apply Qeq_bool_iff in E. rewrite E in Hlt.
  exfalso. apply (Qlt_irrefl _ Hlt).
Qed.

(** The midpoint of a bin lies strictly inside the range of the edges. *)
Lemma linspace_midpoint (start stop : Q) (div i : nat) (l r : Q) :
  start < stop -> (i < div)%nat ->
  linspace start stop div !! i = Some l ->
  linspace start stop div !! S i = Some r ->
  start < (l + r) / 2 /\ (l + r) / 2 < stop.
Proof.
  intros Hlt Hi Hl Hr.
  assert (Hlr : l < r)
    by (apply (Histogram.linspace_increasing start stop div i (S i));
        [exact Hlt | lia | assumption ..]).
  assert (Hfirst : start <= l).
  { destruct i as [|i].
    - rewrite Histogram.linspace_lookup_lt in Hl by exact Hi.
      injection Hl as <-. change (inject_Z (Z.of_nat 0)) with 0. lra.
    - apply Qlt_le_weak.
      assert (H0 : linspace start stop div !! O
                   = Some (start + inject_Z (Z.of_nat 0)
                                   * ((stop - start)
                                      / inject_Z (Z.of_nat div))))
        by (apply Histogram.linspace_lookup_lt; lia).
      pose proof (Histogram.linspace_increasing start stop div O (S i) _ l
                    Hlt ltac:(lia) H0 Hl) as H.
      change (inject_Z (Z.of_nat 0)) with 0 in H. lra. }
  assert (Hlast : r <= stop).
  { destruct (Nat.eq_dec (S i) div) as [E | E].
    - rewrite E, Histogram.linspace_lookup_last in Hr.
      injection Hr as <-. apply Qle_refl.
    - apply Qlt_le_weak.
      apply (Histogram.linspace_increasing start stop div (S i) div);
        [exact Hlt | lia | exact Hr | apply Histogram.linspace_lookup_last]. }
  assert (Hmid : 2 * ((l + r) / 2) == l + r) by field.
  split; lra.
Qed.

Section PeakRange.

Variable np_sqrt : Q -> Q.
Variable Sobel : DepthMap -> nat -> nat -> Matrix.

(** X3. When two valid samples of the map differ, the reported peak depth
    lies strictly between the reported minimum and maximum. *)
Theorem peak_depth_within_range (dm : DepthMap) :
  (exists a b : Q,
      In a (concat dm) /\ In b (concat dm)
      /\ 0 < a /\ 0 < b /\ ~ a == b) ->
  exists (log : list QualityLine) (stats : QualityStats)
         (lowest peak highest : Q),
    analyze_depth_quality np_sqrt Sobel (Some dm) = Ok (log, Some stats)
    /\ min_depth stats = Fin lowest
    /\ peak_depth stats = Fin peak
    /\ max_depth stats = Fin highest
    /\ lowest < peak /\ peak < highest.
Proof.
  intros (a & b & Ha & Hb & Hapos & Hbpos & Hne).
  assert (Hvalid : Exists (fun d => 0 < d) (concat dm))
    by (apply Exists_exists; exists a; split;
        [apply list_elem_of_In, Ha | exact Hapos]).
  destruct (analyze_depth_quality_stats np_sqrt Sobel dm Hvalid)
    as (log & i & l & r & Hrun & Hi & Hl & Hr).
  assert (Hspread : Qmin_of (valid_depths dm) < Qmax_of (valid_depths dm)).
  { apply Qmin_lt_max. exists a, b.
    repeat split; try assumption; apply in_valid_depths; assumption. }
  unfold np_histogram in Hl, Hr.
  rewrite (histogram_range_spread _ Hspread) in Hl, Hr. cbn [snd] in Hl, Hr.
  destruct (linspace_midpoint _ _ _ _ _ _ Hspread Hi Hl Hr) as [Hlo Hhi].
  eexists _, _, _, _, _. split; [exact Hrun |].
  cbn [min_depth peak_depth max_depth]. auto 6.
Qed.

End PeakRange.

Lemma peak_depth_within_range_witness :
  exists (log : list QualityLine) (stats : QualityStats)
         (lowest peak highest : Q),
    analyze_depth_quality isqrt (fun d _ _ => d) (Some quality_example)
    = Ok (log, Some stats)
    /\ min_depth stats = Fin lowest
    /\ peak_depth stats = Fin peak
    /\ max_depth stats = Fin highest
    /\ lowest < peak /\ peak < highest.
Proof.
  apply (peak_depth_within_range isqrt (fun d _ _ => d) quality_example).
  exists 100, 200. repeat split; cbn; try tauto. discriminate.
Defined.

(** ** The comparison of two maps *)


Section ComparisonFacts.

Variable np_sqrt : Q -> Q.

(** The comparison of two maps of one shape with a jointly valid sample,
    with the printed extremes spelled out. *)
Lemma compare_depth_maps_exact (mono stereo : DepthMap) :
  shape mono = shape stereo ->
  count_true (both_valid mono stereo) <> O ->
  let rs := zip_with Qdiv (stereo_valid_depths mono stereo)
                          (mono_valid_depths mono stereo) in
  let ds := zip_with Qminus (stereo_valid_depths mono stereo)
                            (mono_valid_depths mono stereo) in
  let large :=
    inject_Z (Z.of_nat (count_true (map (fun d => Qgtb (Qabs d) 50) ds)))
    / inject_Z (Z.of_nat (count_true (both_valid mono stereo))) * 100 in
  compare_depth_maps np_sqrt (Some mono) (Some stereo)
  = Ok ([CHeader; CValidPixels (count_true (both_valid mono stereo));
         CRatio (Fin (Qmean rs)) (Fin (np_sqrt (Qvar rs)))
                (Fin (Qmin_of rs)) (Fin (Qmax_of rs));
         CDiff (Fin (Qmean ds)) (Fin (np_sqrt (Qvar ds)))
               (Fin (Qmax_of (map Qabs ds)));
         CLargeDiff (Fin large)],
        Some {| mean_ratio := Fin (Qmean rs);
                std_ratio := Fin (np_sqrt (Qvar rs));
                mean_diff := Fin (Qmean ds);
                std_diff := Fin (np_sqrt (Qvar ds));
                max_diff := Fin (Qmax_of (map Qabs ds));
                large_diff_ratio := Fin large |}).
Proof.
  intros Hshape Hn rs ds large.
  pose proof (paired_nonempty Qdiv mono stereo Hn) as Hrs.
  pose proof (paired_nonempty Qminus mono stereo Hn) as Hds.
  assert (Habs : map Qabs ds <> [])
    by (intros H; apply Hds, (map_eq_nil _ _ H)).
  unfold compare_depth_maps.
  rewrite bool_decide_eq_false_2 by (intros H; apply H, Hshape).
  cbn [mbind result_bind].
  rewrite (proj2 (Nat.eqb_neq _ _) Hn).
  rewrite depth_ratios_Fin, depth_diffs_Fin. fold rs ds.
  rewrite (np_min_of rs Hrs), (np_max_of rs Hrs). cbn [mbind result_bind].
  rewrite !np_mean_Fin, !(np_std_Fin np_sqrt) by assumption.
  assert (E1 : map np_abs (map Fin ds) = map Fin (map Qabs ds))
    by (rewrite !map_map; reflexivity).
  assert (E2 : map (fun d => np_gtb (np_abs d) (Fin 50)) (map Fin ds)
               = map (fun d => Qgtb (Qabs d) 50) ds)
    by (rewrite map_map; reflexivity).
  rewrite E1, E2, (np_max_of (map Qabs ds) Habs).
  cbn [mbind result_bind].
  unfold of_nat, np_div. rewrite (inject_nat_nonzero _ Hn).
  reflexivity.
Qed.

(** X4. On two maps of one shape the comparison returns statistics exactly
    when some sample is valid in both; without one it prints the count and
    the warning and returns nothing. *)
Theorem compare_depth_maps_overlap (mono stereo : DepthMap) :
  shape mono = shape stereo ->
  (count_true (both_valid mono stereo) = O ->
   compare_depth_maps np_sqrt (Some mono) (Some stereo)
   = Ok ([CHeader; CValidPixels 0; CNoCommonValid], None))
  /\ (count_true (both_valid mono stereo) <> O ->
      exists (log : list CompareLine) (stats : ComparisonStats),
        compare_depth_maps np_sqrt (Some mono) (Some stereo)
        = Ok (log, Some stats)).
Proof.
  intros Hshape. split.
  - intros Hz. unfold compare_depth_maps.
    rewrite bool_decide_eq_false_2 by (intros H; apply H, Hshape).
    cbn [mbind result_bind]. rewrite Hz. reflexivity.
  - intros Hn. rewrite (compare_depth_maps_exact mono stereo Hshape Hn).
    eauto.
Qed.


End ComparisonFacts.

Lemma compare_depth_maps_overlap_witness :
  compare_depth_maps isqrt (Some [[0; 7]]) (Some [[5; 0]])
  = Ok ([CHeader; CValidPixels 0; CNoCommonValid], None)
  /\ exists (log : list CompareLine) (stats : ComparisonStats),
      compare_depth_maps isqrt (Some mono_example) (Some stereo_example)
      = Ok (log, Some stats).
Proof.
  split.
  - apply (compare_depth_maps_overlap isqrt [[0; 7]] [[5; 0]]); reflexivity.
  - apply (compare_depth_maps_overlap isqrt mono_example stereo_example);
      [reflexivity | discriminate].
Defined.


(** ** Depths in an exact linear relation *)

Lemma linear_sums (a b : Q) (x y : list Q) :
  Forall2 (fun yi xi => yi == a * xi + b) y x ->
  length x = length y
  /\ Qsum y == a * Qsum x + inject_Z (Z.of_nat (length x)) * b
  /\ Qsum (zip_with Qmult x y) == a * Qsum (map Qsquare x) + b * Qsum x.
Proof.
  induction 1 as [|yi xi y x Hyi _ (IHlen & IHy & IHxy)].
  - repeat split; cbn; ring.
  - split; [cbn [length]; congruence |].
    cbn [map zip_with length].
    change (Qsum (?h :: ?t)) with (h + Qsum t).
    rewrite inject_nat_S, IHy, IHxy, Hyi. unfold Qsquare. split; ring.
Qed.

Lemma polyfit1_linear (a b : Q) (x y : list Q) :
  Forall2 (fun yi xi => yi == a * xi + b) y x ->
  (exists p q : Q, In p x /\ In q x /\ ~ p == q) ->
  exists slope intercept : Q,
    polyfit1 x y = Ok (slope, intercept) /\ slope == a /\ intercept == b.
Proof.
  intros Hlin Hdist. destruct (linear_sums a b x y Hlin) as (Hlen & Hy & Hxy).
  pose proof (lsq_det_pos x Hdist) as Hd.
  assert (Hx : x <> [])
    by (destruct Hdist as (p & _ & Hp & _); intros ->; destruct Hp).
  unfold polyfit1.
  assert (Hl0 : (length x =? 0)%nat = false)
    by (apply Nat.eqb_neq; destruct x; [congruence | discriminate]).
  rewrite Hl0, <- Hlen, Nat.eqb_refl. cbn [negb].
  assert (Hnz : ~ inject_Z (Z.of_nat (length x)) == 0).
  { intros H. assert (Hp : 0 < inject_Z (Z.of_nat (length x)))
      by (apply inject_nat_pos; destruct x; [congruence | discriminate]).
    rewrite H in Hp. apply (Qlt_irrefl 0 Hp). }
  assert (Hdz : ~ inject_Z (Z.of_nat (length x)) * Qsum (map Qsquare x)
                  - Qsum x * Qsum x == 0)
    by (intros H; rewrite H in Hd; apply (Qlt_irrefl 0 Hd)).
  assert (Hb : Qeq_bool (inject_Z (Z.of_nat (length x))
                         * Qsum (map Qsquare x) - Qsum x * Qsum x) 0 = false)
    by (apply not_true_iff_false; intros H; apply Hdz, Qeq_bool_iff, H).
  rewrite Hb. eexists _, _. split; [reflexivity |].
  assert (Hs : (inject_Z (Z.of_nat (length x)) * Qsum (zip_with Qmult x y)
                - Qsum x * Qsum y)
               / (inject_Z (Z.of_nat (length x)) * Qsum (map Qsquare x)
                  - Qsum x * Qsum x) == a)
    by (rewrite Hy, Hxy; field; exact Hdz).
  split; [exact Hs |]. rewrite Hs, Hy. field. exact Hnz.
Qed.

Lemma residuals_linear (a b slope intercept : Q) (x y : list Q) :
  Forall2 (fun yi xi => yi == a * xi + b) y x ->
  slope == a -> intercept == b ->
  Forall (fun r => r == 0)
         (zip_with Qminus y (map (fun m => slope * m + intercept) x)).
Proof.
  intros Hlin Hs Hi.
  induction Hlin as [|yi xi y x Hyi _ IH]; cbn [map zip_with]; constructor;
    [| exact IH].
  rewrite Hyi, Hs, Hi. ring.
Qed.

Section LinearRelation.

Variable np_sqrt : Q -> Q.
Hypothesis np_sqrt_zero : forall q : Q, q == 0 -> np_sqrt q == 0.

(** X7. When every jointly valid stereo depth is [a] times the mono depth
    plus [b], and two of the mono depths differ, the fit returns scale [a],
    bias [b] and an RMS error of zero. *)
Theorem linear_relation_is_recovered (mono stereo : DepthMap) (a b : Q) :
  shape mono = shape stereo ->
  Forall2 (fun s m => s == a * m + b)
          (stereo_valid_depths mono stereo) (mono_valid_depths mono stereo) ->
  (exists p q : Q,
      In p (mono_valid_depths mono stereo)
      /\ In q (mono_valid_depths mono stereo) /\ ~ p == q) ->
  exists (log : list CalibrationLine) (stats : CalibrationStats)
         (scale intercept rms : Q),
    analyze_calibration_quality np_sqrt mono stereo None
    = Ok (log, Some stats)
    /\ scale_factor stats = Fin scale /\ scale == a
    /\ bias stats = Fin intercept /\ intercept == b
    /\ rms_error stats = Fin rms /\ rms == 0.
Proof.
  intros Hshape Hlin Hdist.
  assert (Hn : count_true (both_valid mono stereo) <> O).
  { destruct Hdist as (p & _ & Hp & _).
    rewrite <- mono_valid_depths_length.
    destruct (mono_valid_depths mono stereo); [destruct Hp | discriminate]. }
  destruct (polyfit1_linear a b _ _ Hlin Hdist)
    as (slope & intercept & Hfit & Hs & Hi).
  destruct (analyze_calibration_quality_fit np_sqrt mono stereo slope
              intercept Hshape Hn Hfit) as (log & max_e & Hrun).
  rewrite Hrun. eexists _, _, _, _, _. split; [reflexivity |].
  cbn [scale_factor bias rms_error].
  repeat split; try assumption.
  apply np_sqrt_zero, Qmean_zero, Forall_map.
  eapply Forall_impl; [apply (residuals_linear a b _ _ _ _ Hlin Hs Hi) |].
  intros r Hr. unfold Qsquare. rewrite Hr. reflexivity.
Qed.

End LinearRelation.

Lemma linear_relation_is_recovered_witness :
  exists (log : list CalibrationLine) (stats : CalibrationStats)
         (scale intercept rms : Q),
    analyze_calibration_quality isqrt linear_mono linear_stereo None
    = Ok (log, Some stats)
    /\ scale_factor stats = Fin scale /\ scale == 2
    /\ bias stats = Fin intercept /\ intercept == 5
    /\ rms_error stats = Fin rms /\ rms == 0.
Proof.
  apply (linear_relation_is_recovered isqrt isqrt_zero linear_mono
           linear_stereo 2 5).
  - reflexivity.
  - vm_compute. repeat constructor.
  - exists 100, 200. vm_compute. repeat split; try tauto. discriminate.
Defined.

(** ** Recommendations and the whole run *)

(** The three keys the rules read come from the comparison and from the
    fit; the statistics of the single maps do not reach them. *)
Lemma all_analysis_lookup (mono_analysis stereo_analysis : option QualityStats)
    (comparison_analysis : option ComparisonStats)
    (calibration_analysis : option CalibrationStats) :
  let all_analysis :=
    update calibration_dict calibration_analysis
      (update comparison_dict comparison_analysis
         (update quality_dict stereo_analysis
            (update quality_dict mono_analysis ∅))) in
  all_analysis !! "std_ratio" = std_ratio <$> comparison_analysis
  /\ all_analysis !! "large_diff_ratio"
     = large_diff_ratio <$> comparison_analysis
  /\ all_analysis !! "rms_error" = rms_error <$> calibration_analysis.
Proof.
  destruct mono_analysis, stereo_analysis, comparison_analysis,
    calibration_analysis; cbn [update fmap option_fmap option_map];
    unfold calibration_dict, comparison_dict, quality_dict;
    repeat split;
    repeat first [rewrite lookup_union | rewrite lookup_insert
                 | rewrite lookup_empty];
    cbn; reflexivity.
Qed.

Lemma both_valid_exists (a b : list Q) :
  count_true (zip_with andb (map valid a) (map valid b)) <> O ->
  Exists (fun d => 0 < d) a /\ Exists (fun d => 0 < d) b.
Proof.
  revert b. induction a as [|x a IH]; intros [|y b]; cbn [map zip_with];
    try (intros H; exfalso; apply H; reflexivity).
  rewrite count_true_cons.
  destruct (valid x) eqn:Hx, (valid y) eqn:Hy; cbn [andb];
    try (intros H; destruct (IH b H); split; apply Exists_cons_tl;
         assumption).
  intros _. split; apply Exists_cons_hd; apply Qgtb_gt; assumption.
Qed.

(** With the three keys present each rule reports: its advice, or its
    no-action line. *)
Lemma suggest_three_keys (s r e : npfloat) :
  let lines :=
    suggest_calibration_parameters
      {[ "std_ratio" := s; "large_diff_ratio" := r; "rms_error" := e ]} in
  (In RansacThresholdFine lines
   \/ exists threshold, In (LowerRansacThreshold threshold) lines)
  /\ (In OutlierDetectionNotNeeded lines
      \/ In (EnableOutlierDetection 2) lines)
  /\ (In LinearCalibrationEnough lines
      \/ In (EnableLayeredCalibration 5) lines).
Proof.
  unfold suggest_calibration_parameters.
  change (({[ "std_ratio" := s; "large_diff_ratio" := r;
              "rms_error" := e ]} : gmap string npfloat) !! "std_ratio")
    with (Some s).
  change (({[ "std_ratio" := s; "large_diff_ratio" := r;
              "rms_error" := e ]} : gmap string npfloat)
          !! "large_diff_ratio") with (Some r).
  change (({[ "std_ratio" := s; "large_diff_ratio" := r;
              "rms_error" := e ]} : gmap string npfloat) !! "rms_error")
    with (Some e).
  cbv beta iota zeta.
  destruct (np_gtb s (Fin (2 # 10))), (np_gtb r (Fin 20)),
    (np_gtb e (Fin 20)); cbn [app In]; repeat split; eauto 8.
Qed.

Lemma suggest_three_keys_quiet (s r e : npfloat) :
  np_gtb s (Fin (2 # 10)) = false ->
  np_gtb r (Fin 20) = false ->
  np_gtb e (Fin 20) = false ->
  suggest_calibration_parameters
    {[ "std_ratio" := s; "large_diff_ratio" := r; "rms_error" := e ]}
  = [RansacThresholdFine; OutlierDetectionNotNeeded;
     LinearCalibrationEnough].
Proof.
  intros Hs Hr He. unfold suggest_calibration_parameters.
  change (({[ "std_ratio" := s; "large_diff_ratio" := r;
              "rms_error" := e ]} : gmap string npfloat) !! "std_ratio")
    with (Some s).
  change (({[ "std_ratio" := s; "large_diff_ratio" := r;
              "rms_error" := e ]} : gmap string npfloat)
          !! "large_diff_ratio") with (Some r).
  change (({[ "std_ratio" := s; "large_diff_ratio" := r;
              "rms_error" := e ]} : gmap string npfloat) !! "rms_error")
    with (Some e).
  cbv beta iota zeta. rewrite Hs, Hr, He. reflexivity.
Qed.

Lemma np_gtb_zero (q t : Q) : q == 0 -> 0 <= t -> np_gtb (Fin q) (Fin t) = false.
Proof.
  intros Hq Ht. unfold np_gtb, Qgtb. apply Qltb_ge. rewrite Hq. exact Ht.
Qed.

Lemma zip_minus_map (P : Q -> Prop) (f : Q -> Q) (v : list Q) :
  Forall (fun x => P (x - f x)) v -> Forall P (zip_with Qminus v (map f v)).
Proof.
  induction 1 as [|x v Hx _ IH]; cbn [map zip_with]; constructor; assumption.
Qed.

(** The fit of a sample against itself leaves no residual, whether or not
    the sample has any spread. *)
Lemma self_fit_residuals (v : list Q) :
  v <> [] -> Forall (fun m => 0 < m) v ->
  exists slope intercept : Q,
    polyfit1 v v = Ok (slope, intercept)
    /\ Forall (fun r => r == 0)
              (zip_with Qminus v (map (fun m => slope * m + intercept) v)).
Proof.
  intros Hv Hpos. destruct v as [|x0 t]; [congruence |].
  destruct (Forall_Exists_dec (fun x => x == x0) (fun x => ~ x == x0)
              (fun x => Qeq_dec x x0) t) as [Hall | Hex].
  - assert (Hallv : Forall (fun x => x == x0) (x0 :: t))
      by (constructor; [reflexivity | exact Hall]).
    pose proof (Qsum_const x0 _ Hallv) as Hsx.
    assert (Hsq : Forall (fun x => x == x0 * x0) (map Qsquare (x0 :: t))).
    { apply Forall_map. eapply Forall_impl; [apply Hallv |].
      intros x Hx. unfold Qsquare. cbn beta. rewrite Hx. reflexivity. }
    pose proof (Qsum_const (x0 * x0) _ Hsq) as Hsxx.
    rewrite length_map in Hsxx.
    pose proof (Qsum_pos _ Hv Hpos) as Hsxpos.
    assert (Hx0 : 0 < x0) by (inversion Hpos; assumption).
    assert (Hn : 0 < inject_Z (Z.of_nat (length (x0 :: t))))
      by (apply inject_nat_pos; discriminate).
    unfold polyfit1.
    change (length (x0 :: t) =? 0)%nat with false.
    rewrite Nat.eqb_refl, zip_self_mult. cbn [negb].
    set (n := inject_Z (Z.of_nat (length (x0 :: t)))) in *.
    set (sx := Qsum (x0 :: t)) in *.
    set (sxx := Qsum (map Qsquare (x0 :: t))) in *.
    assert (Hd : Qeq_bool (n * sxx - sx * sx) 0 = true)
      by (apply Qeq_bool_iff; rewrite Hsx, Hsxx; ring).
    assert (Hs0 : Qeq_bool sx 0 = false).
    { apply not_true_iff_false. intros H. apply Qeq_bool_iff in H.
      rewrite H in Hsxpos. apply (Qlt_irrefl 0 Hsxpos). }
    rewrite Hd, Hs0. eexists _, _. split; [reflexivity |].
    apply zip_minus_map. eapply Forall_impl; [apply Hallv |].
    intros x Hx. cbn beta. rewrite Hx, Hsx. field.
    split; intros H0; [rewrite H0 in Hn; apply (Qlt_irrefl 0 Hn) |].
    rewrite H0 in Hx0. apply (Qlt_irrefl 0 Hx0).
  - destruct (polyfit1_self (x0 :: t)) as (slope & intercept & Hfit & Hs & Hi).
    { apply Exists_exists in Hex. destruct Hex as (y & Hy & Hne).
      exists y, x0. split; [right; apply list_elem_of_In, Hy |].
      split; [left; reflexivity | exact Hne]. }
    exists slope, intercept. split; [exact Hfit |].
    apply residuals_identity; assumption.
Qed.

Section WholeRun.

Variable np_sqrt : Q -> Q.
Variable Sobel : DepthMap -> nat -> nat -> Matrix.

(** The run on two maps of one shape with a jointly valid sample, once
    [np.polyfit] has returned. *)
Lemma main_run (mono stereo : DepthMap) (slope intercept : Q) :
  shape mono = shape stereo ->
  count_true (both_valid mono stereo) <> O ->
  polyfit1 (mono_valid_depths mono stereo) (stereo_valid_depths mono stereo)
  = Ok (slope, intercept) ->
  exists (log : list CompareLine) (comparison : ComparisonStats)
         (log' : list CalibrationLine) (calibration : CalibrationStats),
    compare_depth_maps np_sqrt (Some mono) (Some stereo)
    = Ok (log, Some comparison)
    /\ analyze_calibration_quality np_sqrt mono stereo None
       = Ok (log', Some calibration)
    /\ std_ratio comparison
       = Fin (np_sqrt (Qvar (zip_with Qdiv (stereo_valid_depths mono stereo)
                                           (mono_valid_depths mono stereo))))
    /\ large_diff_ratio comparison
       = Fin (inject_Z (Z.of_nat
                (count_true
                   (map (fun d => Qgtb (Qabs d) 50)
                        (zip_with Qminus (stereo_valid_depths mono stereo)
                                         (mono_valid_depths mono stereo)))))
              / inject_Z (Z.of_nat (count_true (both_valid mono stereo)))
              * 100)
    /\ rms_error calibration
       = Fin (np_sqrt
                (Qmean
                   (map Qsquare
                      (zip_with Qminus (stereo_valid_depths mono stereo)
                         (map (fun m => slope * m + intercept)
                              (mono_valid_depths mono stereo))))))
    /\ main np_sqrt Sobel (Some mono) (Some stereo)
       = Ok (suggest_calibration_parameters
               {[ "std_ratio" := std_ratio comparison;
                  "large_diff_ratio" := large_diff_ratio comparison;
                  "rms_error" := rms_error calibration ]}).
Proof.
  intros Hshape Hn Hfit.
  destruct (both_valid_exists _ _ Hn) as [Hm Hs].
  destruct (analyze_depth_quality_stats np_sqrt Sobel mono Hm)
    as (lm & im & l1 & r1 & Hrun_m & _).
  destruct (analyze_depth_quality_stats np_sqrt Sobel stereo Hs)
    as (ls & is_ & l2 & r2 & Hrun_s & _).
  pose proof (compare_depth_maps_exact np_sqrt mono stereo Hshape Hn) as Hcmp.
  destruct (analyze_calibration_quality_fit np_sqrt mono stereo slope
              intercept Hshape Hn Hfit) as (lc & max_e & Hcal).
  cbv zeta in Hcmp.
  match type of Hcmp with
  | _ = Ok (_, Some ?c) => set (comparison := c) in *
  end.
  match type of Hcal with
  | _ = Ok (_, Some ?c) => set (calibration := c) in *
  end.
  eexists _, comparison, _, calibration.
  split; [exact Hcmp |]. split; [exact Hcal |].
  repeat (split; [reflexivity |]).
  unfold main. rewrite Hrun_m, Hrun_s, Hcmp, Hcal.
  cbn [mbind result_bind snd]. reflexivity.
Qed.

(** X9. On two maps of one shape with a jointly valid sample the run
    completes, and its recommendations are those of three statistics only:
    the standard deviation of the ratio and the large-difference percentage
    of the comparison, and the RMS error of the fit.  Each of the three
    rules reports: its advice, or its no-action line. *)
Theorem main_recommendations (mono stereo : DepthMap) :
  shape mono = shape stereo ->
  count_true (both_valid mono stereo) <> O ->
  exists (log : list CompareLine) (comparison : ComparisonStats)
         (log' : list CalibrationLine) (calibration : CalibrationStats),
    compare_depth_maps np_sqrt (Some mono) (Some stereo)
    = Ok (log, Some comparison)
    /\ analyze_calibration_quality np_sqrt mono stereo None
       = Ok (log', Some calibration)
    /\ main np_sqrt Sobel (Some mono) (Some stereo)
       = Ok (suggest_calibration_parameters
               {[ "std_ratio" := std_ratio comparison;
                  "large_diff_ratio" := large_diff_ratio comparison;
                  "rms_error" := rms_error calibration ]})
    /\ exists lines : list Suggestion,
        main np_sqrt Sobel (Some mono) (Some stereo) = Ok lines
        /\ (In RansacThresholdFine lines
            \/ exists threshold, In (LowerRansacThreshold threshold) lines)
        /\ (In OutlierDetectionNotNeeded lines
            \/ In (EnableOutlierDetection 2) lines)
        /\ (In LinearCalibrationEnough lines
            \/ In (EnableLayeredCalibration 5) lines).
Proof.
  intros Hshape Hn.
  destruct (polyfit1_ok (mono_valid_depths mono stereo)
                        (stereo_valid_depths mono stereo))
    as (slope & intercept & Hfit).
  { intros H. apply (f_equal length) in H.
    rewrite mono_valid_depths_length in H. cbn in H. lia. }
  { rewrite mono_valid_depths_length, stereo_valid_depths_length.
    reflexivity. }
  { apply mono_valid_depths_pos. }
  destruct (main_run mono stereo slope intercept Hshape Hn Hfit)
    as (log & comparison & log' & calibration & Hcmp & Hcal & _ & _ & _
        & Hmain).
  exists log, comparison, log', calibration.
  split; [exact Hcmp |]. split; [exact Hcal |]. split; [exact Hmain |].
  eexists. split; [exact Hmain |]. apply suggest_three_keys.
Qed.

(** X10. When each of two maps of one shape has valid samples but no
    sample is valid in both, the run completes without a single
    recommendation. *)
Theorem main_without_overlap_is_silent (mono stereo : DepthMap) :
  shape mono = shape stereo ->
  Exists (fun d => 0 < d) (concat mono) ->
  Exists (fun d => 0 < d) (concat stereo) ->
  count_true (both_valid mono stereo) = O ->
  main np_sqrt Sobel (Some mono) (Some stereo) = Ok [].
Proof.
  intros Hshape Hm Hs Hz.
  destruct (analyze_depth_quality_stats np_sqrt Sobel mono Hm)
    as (lm & im & l1 & r1 & Hrun_m & _).
  destruct (analyze_depth_quality_stats np_sqrt Sobel stereo Hs)
    as (ls & is_ & l2 & r2 & Hrun_s & _).
  unfold main. rewrite Hrun_m, Hrun_s. cbn [mbind result_bind snd].
  unfold compare_depth_maps, analyze_calibration_quality.
  rewrite bool_decide_eq_false_2 by (intros H; apply H, Hshape).
  cbn [mbind result_bind]. rewrite Hz.
  cbn [Nat.eqb mbind result_bind snd]. reflexivity.
Qed.

End WholeRun.

Section IdenticalRun.

Variable np_sqrt : Q -> Q.
Variable Sobel : DepthMap -> nat -> nat -> Matrix.
Hypothesis np_sqrt_zero : forall q : Q, q == 0 -> np_sqrt q == 0.

(** X11. The run on a map with a valid sample against itself finds nothing
    to recommend: each of the three rules prints its no-action line. *)
Theorem main_on_identical_maps (dm : DepthMap) :
  Exists (fun d => 0 < d) (concat dm) ->
  main np_sqrt Sobel (Some dm) (Some dm)
  = Ok [RansacThresholdFine; OutlierDetectionNotNeeded;
        LinearCalibrationEnough].
Proof.
  intros Hvalid.
  assert (Hn : count_true (both_valid dm dm) <> O)
    by apply count_both_valid_self, Hvalid.
  pose proof (mono_valid_depths_pos dm dm) as Hpos.
  assert (Hv : mono_valid_depths dm dm <> []).
  { intros H. apply (f_equal length) in H.
    rewrite mono_valid_depths_length in H. cbn in H. lia. }
  destruct (self_fit_residuals _ Hv Hpos)
    as (slope & intercept & Hfit & Hres).
  destruct (main_run np_sqrt Sobel dm dm slope intercept eq_refl Hn Hfit)
    as (log & comparison & log' & calibration & _ & _ & Hstd & Hlarge
        & Hrms & Hmain).
  rewrite Hmain, Hstd, Hlarge, Hrms. f_equal.
  change (stereo_valid_depths dm dm) with (mono_valid_depths dm dm) in *.
  pose proof (paired_nonempty Qdiv dm dm Hn) as Hrs.
  change (stereo_valid_depths dm dm) with (mono_valid_depths dm dm) in Hrs.
  apply suggest_three_keys_quiet; apply np_gtb_zero; try discriminate.
  - apply np_sqrt_zero, (Qvar_const 1 _ Hrs), zip_self_div, Hpos.
  - rewrite (count_large_zero _ (zip_self_minus _)). cbn [Z.of_nat].
    unfold Qdiv. ring.
  - apply np_sqrt_zero, Qmean_zero, Forall_map.
    eapply Forall_impl; [apply Hres |].
    intros r Hr. unfold Qsquare. rewrite Hr. reflexivity.
Qed.

End IdenticalRun.

Lemma main_on_identical_maps_witness :
  main isqrt (fun d _ _ => d) (Some quality_example) (Some quality_example)
  = Ok [RansacThresholdFine; OutlierDetectionNotNeeded;
        LinearCalibrationEnough].
Proof.
  apply (main_on_identical_maps isqrt (fun d _ _ => d) isqrt_zero
           quality_example).
  constructor. reflexivity.
Defined.

Lemma main_recommendations_witness :
  exists lines : list Suggestion,
    main isqrt (fun d _ _ => d) (Some mono_example) (Some stereo_example)
    = Ok lines
    /\ (In RansacThresholdFine lines
        \/ exists threshold, In (LowerRansacThreshold threshold) lines)
    /\ (In OutlierDetectionNotNeeded lines
        \/ In (EnableOutlierDetection 2) lines)
    /\ (In LinearCalibrationEnough lines
        \/ In (EnableLayeredCalibration 5) lines).
Proof.
  destruct (main_recommendations isqrt (fun d _ _ => d) mono_example
              stereo_example) as (_ & _ & _ & _ & _ & _ & _ & H);
    [reflexivity | discriminate | exact H].
Defined.

Lemma main_without_overlap_is_silent_witness :
  main isqrt (fun d _ _ => d) (Some [[0; 7]]) (Some [[5; 0]]) = Ok [].
Proof.
  apply (main_without_overlap_is_silent isqrt (fun d _ _ => d)
           [[0; 7]] [[5; 0]]).
  - reflexivity.
  - apply Exists_cons_tl, Exists_cons_hd. reflexivity.
  - apply Exists_cons_hd. reflexivity.
  - reflexivity.
Defined.

(** ** The ratio map of the visualization *)



(** A map of another shape draws no ratio map. *)
Lemma ratio_map_shape_mismatch (mono stereo : DepthMap) :
  shape mono <> shape stereo -> ratio_map mono stereo = None.
Proof.
  intros H. unfold ratio_map. rewrite bool_decide_eq_false_2 by exact H.
  reflexivity.
Qed.

(** ** Maps of different shapes in the fit *)

(** Shapes that broadcast reach the guard: without a jointly valid sample
    the function returns nothing, with one the masked selection raises;
    shapes that do not broadcast raise at the combination of the masks. *)
Example analyze_calibration_quality_shapes :
  analyze_calibration_quality isqrt [[0]] [[5; 6]] None
  = Ok ([AHeader; ANoValidPixels], None)
  /\ analyze_calibration_quality isqrt [[1]] [[5; 6]] None = Raise IndexError
  /\ analyze_calibration_quality isqrt [[1; 2; 3]] [[5; 6]] None
     = Raise ValueError.
Proof. repeat split. Qed.

End DepthCalibrationDiagnosisFacts.

(* ================================================================== *)
(** * Further properties of the depth analysis *)

Module DepthAnalysisFacts.
Import DepthAnalysis.

(** ** Depth from disparity *)


(** X14. For a positive product of baseline and focal length the depth
    decreases as the disparity grows. *)
Theorem depth_decreases_with_disparity (d1 d2 baseline focal : Q) :
  0 < baseline * focal -> 0 < d1 -> d1 < d2 ->
  exists z1 z2 : Q,
    calculate_depth_from_disparity d1 baseline focal = Fin z1
    /\ calculate_depth_from_disparity d2 baseline focal = Fin z2
    /\ z2 < z1 /\ 0 < z2.
Proof.
  intros Hbf H1 H12.
  assert (H2 : 0 < d2) by lra.
  unfold calculate_depth_from_disparity.
  rewrite (proj2 (Qgtb_gt d1 0) H1), (proj2 (Qgtb_gt d2 0) H2).
  assert (Hz : forall d, 0 < d -> Qeq_bool d 0 = false).
  { intros d Hd. apply not_true_iff_false. intros H.
    apply Qeq_bool_iff in H. rewrite H in Hd. apply (Qlt_irrefl 0 Hd). }
  unfold np_div. rewrite (Hz d1 H1), (Hz d2 H2).
  eexists _, _. split; [reflexivity |]. split; [reflexivity |].
  set (k := baseline * focal) in *.
  split.
  - apply Qlt_shift_div_l; [exact H1 |].
    assert (E : k / d2 * d1 == k * (d1 / d2))
      by (field; intros H; rewrite H in H2; apply (Qlt_irrefl 0 H2)).
    rewrite E.
    assert (Hr : d1 / d2 < 1) by (apply Qlt_shift_div_r; [exact H2 | lra]).
    nra.
  - apply Qlt_shift_div_l; [exact H2 | lra].
Qed.

Lemma depth_decreases_with_disparity_witness :
  exists z1 z2 : Q,
    calculate_depth_from_disparity 10 120 1000 = Fin z1
    /\ calculate_depth_from_disparity 20 120 1000 = Fin z2
    /\ z2 < z1 /\ 0 < z2.
Proof.
  apply (depth_decreases_with_disparity 10 20 120 1000); reflexivity.
Defined.

(** ** The comparison of two devices *)

Lemma Qabs_minus_swap (x y : Q) : Qabs (x - y) == Qabs (y - x).
Proof.
  assert (E : x - y == - (y - x)) by ring. rewrite E. apply Qabs_opp.
Qed.

Lemma Qgtb_comp (a a' b b' : Q) :
  a == a' -> b == b' -> Qgtb a b = Qgtb a' b'.
Proof. intros Ha Hb. unfold Qgtb, Qltb. rewrite Ha, Hb. reflexivity. Qed.

Lemma in_flag (b : bool) (a x : DeviceLine) :
  In x (if b then [a] else []) <-> b = true /\ x = a.
Proof.
  destruct b; cbn [In]; split.
  - intros [H | []]. auto.
  - intros [_ ->]. auto.
  - intros [].
  - intros [H _]. discriminate H.
Qed.

Lemma in_advice (x : DeviceLine) (fd bd : Q) (warning : list DeviceLine)
    (b1 b2 b3 : bool) :
  In x ([ParameterDifference fd bd] ++ warning
        ++ (if b1 then [CheckMountingDistance] else [])
        ++ (if b2 then [RecalibrateFocal] else [])
        ++ (if b3 then [RotationAffectsDepth] else []))
  <-> x = ParameterDifference fd bd \/ In x warning
      \/ (b1 = true /\ x = CheckMountingDistance)
      \/ (b2 = true /\ x = RecalibrateFocal)
      \/ (b3 = true /\ x = RotationAffectsDepth).
Proof.
  rewrite !in_app_iff, !in_flag. cbn [In]. intuition (subst; auto).
Qed.

Lemma not_in_warning (w : list DeviceLine) (x : DeviceLine) :
  (w = [] \/ exists d1 d2 diff pct, w = [DeviationWarning d1 d2 diff pct]) ->
  In x w -> exists d1 d2 diff pct, x = DeviationWarning d1 d2 diff pct.
Proof.
  intros [-> | (d1 & d2 & diff & pct & ->)] Hin; [destruct Hin |].
  destruct Hin as [<- | []]. eauto.
Qed.

Section Devices.

Variable np_sqrt : Q -> Q.
Variable RQDecomp3x3 : Matrix -> result (Q * Q * Q).

(** The lines of [compare_loaded] from the two analysed factor sets. *)
Lemma compare_loaded_lines (p1 p2 : CameraParams) (lines : list DeviceLine) :
  compare_loaded np_sqrt RQDecomp3x3 p1 p2 = Ok lines ->
  exists (f1 f2 : DepthFactors) (warning : list DeviceLine),
    analyze_depth_factors np_sqrt RQDecomp3x3 p1 = Ok f1
    /\ analyze_depth_factors np_sqrt RQDecomp3x3 p2 = Ok f2
    /\ (let focal_diff :=
          Qabs (focal_length_left f1 - focal_length_left f2) in
        let baseline_diff := Qabs (baseline f1 - baseline f2) in
        (warning = []
         \/ exists d1 d2 diff pct, warning = [DeviationWarning d1 d2 diff pct])
        /\ (warning = [] <->
            Qgtb baseline_diff (1 # 10) || Qgtb focal_diff 1 = false)
        /\ lines
           = [ParameterDifference focal_diff baseline_diff] ++ warning
             ++ (if Qgtb baseline_diff 5 then [CheckMountingDistance] else [])
             ++ (if Qgtb focal_diff 10 then [RecalibrateFocal] else [])
             ++ (if Qgtb (Qabs (snd (fst (rotation_angles f1)))) 5
                    || Qgtb (Qabs (snd (fst (rotation_angles f2)))) 5
                 then [RotationAffectsDepth] else [])).
Proof.
  unfold compare_loaded.
  destruct (analyze_depth_factors np_sqrt RQDecomp3x3 p1) as [f1|e];
    [| discriminate].
  destruct (analyze_depth_factors np_sqrt RQDecomp3x3 p2) as [f2|e];
    [| discriminate].
  cbn [mbind result_bind]. intros H. injection H as <-.
  eexists f1, f2, _. split; [reflexivity |]. split; [reflexivity |].
  cbv zeta. split; [| split; [| reflexivity]].
  - destruct (_ || _); [right; eauto | left; reflexivity].
  - destruct (_ || _); split; intros H; (reflexivity || discriminate H).
Qed.

(** X15. Whenever the comparison advises to check the mounting distance or
    to recalibrate the focal length, it has also printed the deviation
    warning with the two depths at disparity 50. *)
Theorem advice_follows_warning (p1 p2 : CameraParams)
    (lines : list DeviceLine) :
  compare_loaded np_sqrt RQDecomp3x3 p1 p2 = Ok lines ->
  In CheckMountingDistance lines \/ In RecalibrateFocal lines ->
  exists depth1 depth2 difference percent : npfloat,
    In (DeviationWarning depth1 depth2 difference percent) lines.
Proof.
  intros Hrun Hadvice.
  destruct (compare_loaded_lines p1 p2 lines Hrun)
    as (f1 & f2 & warning & _ & _ & Hshape & Hwarn & ->).
  cbv zeta in Hshape, Hwarn.
  set (fd := Qabs (focal_length_left f1 - focal_length_left f2)) in *.
  set (bd := Qabs (baseline f1 - baseline f2)) in *.
  assert (Hexceeds : Qgtb bd (1 # 10) || Qgtb fd 1 = true).
  { apply orb_true_iff.
    destruct Hadvice as [H | H]; apply in_advice in H;
      destruct H as [H | [H | [[H H'] | [[H H'] | [H H']]]]];
      try discriminate H; try discriminate H'.
    - destruct (not_in_warning _ _ Hshape H) as (? & ? & ? & ? & E).
      discriminate E.
    - left. apply Qgtb_gt. apply Qgtb_gt in H. lra.
    - destruct (not_in_warning _ _ Hshape H) as (? & ? & ? & ? & E).
      discriminate E.
    - right. apply Qgtb_gt. apply Qgtb_gt in H. lra. }
  destruct Hshape as [Hnone | (d1 & d2 & diff & pct & ->)].
  - apply Hwarn in Hnone. rewrite Hnone in Hexceeds. discriminate Hexceeds.
  - exists d1, d2, diff, pct. apply in_advice. right. left. left. reflexivity.
Qed.

(** X16. The advice does not depend on the order of the two devices: the
    comparison of the exchanged pair succeeds as well and gives the same
    three pieces of advice and the same warning condition. *)
Theorem compare_loaded_exchange (p1 p2 : CameraParams)
    (lines : list DeviceLine) :
  compare_loaded np_sqrt RQDecomp3x3 p1 p2 = Ok lines ->
  exists lines' : list DeviceLine,
    compare_loaded np_sqrt RQDecomp3x3 p2 p1 = Ok lines'
    /\ (In CheckMountingDistance lines <-> In CheckMountingDistance lines')
    /\ (In RecalibrateFocal lines <-> In RecalibrateFocal lines')
    /\ (In RotationAffectsDepth lines <-> In RotationAffectsDepth lines')
    /\ ((exists d1 d2 diff pct, In (DeviationWarning d1 d2 diff pct) lines)
        <-> (exists d1 d2 diff pct,
                In (DeviationWarning d1 d2 diff pct) lines')).
Proof.
  intros Hrun.
  destruct (compare_loaded_lines p1 p2 lines Hrun)
    as (f1 & f2 & warning & Hf1 & Hf2 & Hshape & Hwarn & ->).
  assert (Hrun' : exists lines', compare_loaded np_sqrt RQDecomp3x3 p2 p1
                                 = Ok lines').
  { unfold compare_loaded. rewrite Hf2, Hf1. cbn [mbind result_bind]. eauto. }
  destruct Hrun' as [lines' Hrun']. exists lines'. split; [exact Hrun' |].
  destruct (compare_loaded_lines p2 p1 lines' Hrun')
    as (g2 & g1 & warning' & Hg2 & Hg1 & Hshape' & Hwarn' & ->).
  rewrite Hf1 in Hg1. rewrite Hf2 in Hg2.
  injection Hg1 as <-. injection Hg2 as <-.
  cbv zeta in *.
  set (fd := Qabs (focal_length_left f1 - focal_length_left f2)) in *.
  set (bd := Qabs (baseline f1 - baseline f2)) in *.
  set (fd' := Qabs (focal_length_left f2 - focal_length_left f1)) in *.
  set (bd' := Qabs (baseline f2 - baseline f1)) in *.
  assert (Hfd : fd == fd') by apply Qabs_minus_swap.
  assert (Hbd : bd == bd') by apply Qabs_minus_swap.
  assert (E5 : Qgtb bd 5 = Qgtb bd' 5)
    by (apply Qgtb_comp; [exact Hbd | reflexivity]).
  assert (E10 : Qgtb fd 10 = Qgtb fd' 10)
    by (apply Qgtb_comp; [exact Hfd | reflexivity]).
  assert (Ew : Qgtb bd (1 # 10) || Qgtb fd 1
               = Qgtb bd' (1 # 10) || Qgtb fd' 1).
  { f_equal; apply Qgtb_comp; (assumption || reflexivity). }
  rewrite <- E5, <- E10, <- Ew in *.
  rewrite (orb_comm (Qgtb (Qabs (snd (fst (rotation_angles f2)))) 5)).
  assert (Hsame : warning = [] <-> warning' = [])
    by (rewrite Hwarn, Hwarn'; tauto).
  assert (Hadv : forall x,
             (forall d1 d2 diff pct, x <> DeviationWarning d1 d2 diff pct) ->
             x <> ParameterDifference fd bd ->
             x <> ParameterDifference fd' bd' ->
             (In x ([ParameterDifference fd bd] ++ warning
                    ++ (if Qgtb bd 5 then [CheckMountingDistance] else [])
                    ++ (if Qgtb fd 10 then [RecalibrateFocal] else [])
                    ++ (if Qgtb (Qabs (snd (fst (rotation_angles f1)))) 5
                           || Qgtb (Qabs (snd (fst (rotation_angles f2)))) 5
                        then [RotationAffectsDepth] else []))
              <-> In x ([ParameterDifference fd' bd'] ++ warning'
                    ++ (if Qgtb bd 5 then [CheckMountingDistance] else [])
                    ++ (if Qgtb fd 10 then [RecalibrateFocal] else [])
                    ++ (if Qgtb (Qabs (snd (fst (rotation_angles f1)))) 5
                           || Qgtb (Qabs (snd (fst (rotation_angles f2)))) 5
                        then [RotationAffectsDepth] else [])))).
  { intros x Hx Hpd Hpd'. rewrite !in_advice.
    split; (intros [H | [H | H]]; [congruence | | auto]).
    - destruct (not_in_warning _ _ Hshape H) as (? & ? & ? & ? & E).
      exfalso. eapply Hx, E.
    - destruct (not_in_warning _ _ Hshape' H) as (? & ? & ? & ? & E).
      exfalso. eapply Hx, E. }
  split; [apply Hadv; discriminate |].
  split; [apply Hadv; discriminate |].
  split; [apply Hadv; discriminate |].
  split.
  - intros (d1 & d2 & diff & pct & H). apply in_advice in H.
    destruct Hshape' as [Hnil | (e1 & e2 & ediff & epct & ->)].
    + exfalso. apply Hsame in Hnil. subst warning.
      destruct H as [H | [[] | [[_ H] | [[_ H] | [_ H]]]]]; discriminate H.
    + exists e1, e2, ediff, epct. apply in_advice. right. left. left.
      reflexivity.
  - intros (d1 & d2 & diff & pct & H). apply in_advice in H.
    destruct Hshape as [Hnil | (e1 & e2 & ediff & epct & ->)].
    + exfalso. apply Hsame in Hnil. subst warning'.
      destruct H as [H | [[] | [[_ H] | [[_ H] | [_ H]]]]]; discriminate H.
    + exists e1, e2, ediff, epct. apply in_advice. right. left. left.
      reflexivity.
Qed.

End Devices.

Lemma advice_follows_warning_witness :
  exists (lines : list DeviceLine) (d1 d2 diff pct : npfloat),
    compare_loaded isqrt (fun _ => Ok (0, 0, 0))
                   (params_example 1000 120) (params_example 1020 130)
    = Ok lines
    /\ In CheckMountingDistance lines
    /\ In (DeviationWarning d1 d2 diff pct) lines.
Proof.
  destruct (compare_loaded isqrt (fun _ => Ok (0, 0, 0))
              (params_example 1000 120) (params_example 1020 130))
    as [lines|e] eqn:Hrun; [| vm_compute in Hrun; discriminate Hrun].
  assert (Hcheck : In CheckMountingDistance lines)
    by (vm_compute in Hrun; injection Hrun as <-; cbn; tauto).
  destruct (advice_follows_warning isqrt (fun _ => Ok (0, 0, 0))
              (params_example 1000 120) (params_example 1020 130) lines Hrun)
    as (d1 & d2 & diff & pct & Hin); [left; exact Hcheck |].
  exists lines, d1, d2, diff, pct. auto.
Defined.

Lemma compare_loaded_exchange_witness :
  exists lines lines' : list DeviceLine,
    compare_loaded isqrt (fun _ => Ok (0, 0, 0))
                   (params_example 1000 120) (params_example 1020 130)
    = Ok lines
    /\ compare_loaded isqrt (fun _ => Ok (0, 0, 0))
                      (params_example 1020 130) (params_example 1000 120)
       = Ok lines'
    /\ (In RecalibrateFocal lines <-> In RecalibrateFocal lines').
Proof.
  destruct (compare_loaded isqrt (fun _ => Ok (0, 0, 0))
              (params_example 1000 120) (params_example 1020 130))
    as [lines|e] eqn:Hrun; [| vm_compute in Hrun; discriminate Hrun].
  destruct (compare_loaded_exchange isqrt (fun _ => Ok (0, 0, 0))
              (params_example 1000 120) (params_example 1020 130) lines Hrun)
    as (lines' & Hrun' & _ & Hfocal & _).
  exists lines, lines'. auto.
Defined.

(** ** The loader *)

Section Loader.

Variable py_float : string -> result Q.

(** A returned parameter set is parsed from the three files the loader
    chose. *)
Lemma load_camera_parameters_success (fs : gmap string (list string))
    (device_name : string) (params : CameraParams) :
  snd (load_camera_parameters py_float fs device_name) = Some params ->
  exists lines_l lines_r lines_e : list string,
    fs !! (if path_exists fs (left_qualified device_name)
           then left_qualified device_name else left_base) = Some lines_l
    /\ fs !! (if path_exists fs (right_qualified device_name)
              then right_qualified device_name else right_base)
       = Some lines_r
    /\ fs !! (if path_exists fs (rot_trans_qualified device_name)
              then rot_trans_qualified device_name else rot_trans_base)
       = Some lines_e
    /\ parse_intrinsics py_float lines_l
       = Ok (left_matrix params, left_distortion params)
    /\ parse_intrinsics py_float lines_r
       = Ok (right_matrix params, right_distortion params)
    /\ parse_rot_trans py_float lines_e
       = Ok (rotation params, translation params).
Proof.
  unfold load_camera_parameters. intros Hrun.
  destruct (fs !! _) as [ll|] eqn:Hl in Hrun; [| discriminate Hrun].
  destruct (parse_intrinsics py_float ll) as [[ml dl]|e] eqn:Hpl;
    [| discriminate Hrun].
  destruct (fs !! _) as [lr|] eqn:Hr in Hrun; [| discriminate Hrun].
  destruct (parse_intrinsics py_float lr) as [[mr dr]|e] eqn:Hpr;
    [| discriminate Hrun].
  destruct (fs !! _) as [le|] eqn:He in Hrun; [| discriminate Hrun].
  destruct (parse_rot_trans py_float le) as [[rm t]|e] eqn:Hpe;
    [| discriminate Hrun].
  cbn [snd] in Hrun. injection Hrun as <-.
  exists ll, lr, le. cbn [left_matrix left_distortion right_matrix
    right_distortion rotation translation]. auto 10.
Qed.

(** X17. A parameter set that loads always carries a translation of
    exactly three components: a file with fewer or more of them is rejected
    by the reshape and the load returns nothing. *)
Theorem loaded_translation_has_three_components
    (fs : gmap string (list string)) (device_name : string)
    (params : CameraParams) :
  snd (load_camera_parameters py_float fs device_name) = Some params ->
  length (translation params) = 3%nat.
Proof.
  intros Hrun.
  destruct (load_camera_parameters_success fs device_name params Hrun)
    as (ll & lr & le & _ & _ & _ & _ & _ & Hparse).
  unfold parse_rot_trans in Hparse.
  destruct (parse_rot_trans_lines py_float le false false [] [])
    as [[rm t]|e]; [| discriminate Hparse].
  cbn [mbind result_bind snd] in Hparse.
  destruct (length t =? 3)%nat eqn:Hlen; [| discriminate Hparse].
  injection Hparse as _ <-. apply Nat.eqb_eq, Hlen.
Qed.

End Loader.

Lemma loaded_translation_has_three_components_witness :
  exists params : CameraParams,
    snd (load_camera_parameters float_of_digits fs_example "_device2")
    = Some params
    /\ length (translation params) = 3%nat.
Proof.
  destruct (snd (load_camera_parameters float_of_digits fs_example
                   "_device2")) as [params|] eqn:Hrun;
    [| vm_compute in Hrun; discriminate Hrun].
  exists params. split; [reflexivity |].
  apply (loaded_translation_has_three_components float_of_digits fs_example
           "_device2" params Hrun).
Defined.

(** ** The files of the two devices *)

Lemma Qgtb_abs_self (b t : Q) : 0 <= t -> Qgtb (Qabs (b - b)) t = false.
Proof.
  intros Ht. apply Qltb_ge.
  assert (E : b - b == 0) by ring. rewrite E. exact Ht.
Qed.

Section Files.

Variable py_float : string -> result Q.
Variable np_sqrt : Q -> Q.
Variable RQDecomp3x3 : Matrix -> result (Q * Q * Q).

(** The baseline of an analysed parameter set is the norm of its
    translation. *)
Lemma analyze_depth_factors_baseline (p : CameraParams) (f : DepthFactors) :
  analyze_depth_factors np_sqrt RQDecomp3x3 p = Ok f ->
  baseline f = np_sqrt (Qsum (map Qsquare (translation p))).
Proof.
  unfold analyze_depth_factors. intros H.
  repeat (match type of H with
          | mbind _ ?r = _ =>
              destruct r; cbn [mbind result_bind] in H; [| discriminate H]
          end).
  injection H as <-. reflexivity.
Qed.

(** X18. When the second device has no rotation and translation file of
    its own, both devices are loaded with the extrinsics of the base file,
    so the comparison finds no baseline difference and never advises to
    check the mounting distance. *)
Theorem shared_extrinsics_no_mounting_advice
    (fs : gmap string (list string)) (device2_name : string)
    (lines : list DeviceLine) :
  path_exists fs (rot_trans_qualified device2_name) = false ->
  compare_devices py_float np_sqrt RQDecomp3x3 fs "" device2_name = Ok lines ->
  ~ In CheckMountingDistance lines.
Proof.
  intros Hmissing Hrun Hin. unfold compare_devices in Hrun.
  destruct (snd (load_camera_parameters py_float fs "")) as [p1|] eqn:Hl1;
    [| injection Hrun as <-; destruct Hin as [H | []]; discriminate H].
  destruct (snd (load_camera_parameters py_float fs device2_name))
    as [p2|] eqn:Hl2;
    [| injection Hrun as <-; destruct Hin as [H | []]; discriminate H].
  destruct (load_camera_parameters_success py_float fs "" p1 Hl1)
    as (_ & _ & le1 & _ & _ & He1 & _ & _ & Hp1).
  destruct (load_camera_parameters_success py_float fs device2_name p2 Hl2)
    as (_ & _ & le2 & _ & _ & He2 & _ & _ & Hp2).
  rewrite Hmissing in He2.
  change (rot_trans_qualified "") with rot_trans_base in He1.
  assert (Hsame : fs !! rot_trans_base = Some le1)
    by (destruct (path_exists fs rot_trans_base); exact He1).
  rewrite Hsame in He2. injection He2 as <-.
  rewrite Hp1 in Hp2. injection Hp2 as _ Ht.
  destruct (compare_loaded_lines np_sqrt RQDecomp3x3 p1 p2 lines Hrun)
    as (f1 & f2 & warning & Hf1 & Hf2 & Hshape & _ & ->).
  cbv zeta in Hshape.
  rewrite (analyze_depth_factors_baseline p1 f1 Hf1),
    (analyze_depth_factors_baseline p2 f2 Hf2), <- Ht in Hin.
  apply in_advice in Hin.
  destruct Hin as [H | [H | [[H _] | [[_ H] | [_ H]]]]]; try discriminate H.
  - destruct (not_in_warning _ _ Hshape H) as (? & ? & ? & ? & E).
    discriminate E.
  - rewrite Qgtb_abs_self in H by (unfold Qle; cbn; lia). discriminate H.
Qed.

(** With no line holding [intrinsic:] the camera matrix stays as it was. *)
Lemma parse_intrinsics_lines_no_marker (lines : list string)
    (reading_distortion : bool) (m m' : Matrix) (d d' : list Q) :
  Forall (fun line => contains "intrinsic:" line = false) lines ->
  parse_intrinsics_lines py_float lines false reading_distortion m d
  = Ok (m', d') ->
  m' = m.
Proof.
  intros Hall. revert reading_distortion d.
  induction Hall as [|line rest Hline _ IH]; intros rd d; cbn.
  - intros H. injection H as <- _. reflexivity.
  - rewrite Hline. destruct (contains "distortion:" line).
    + apply IH.
    + destruct rd.
      * destruct (mapM py_float (py_split line)) as [row|e];
          cbn [mbind result_bind]; [apply IH | discriminate].
      * apply IH.
Qed.

(** X19. An intrinsics file for the left camera in which no line holds
    [intrinsic:] still loads, with an empty camera matrix; the analysis of
    the loaded parameters then raises [IndexError] at its first index, and so
    does the whole run when this is the default device. *)
Theorem intrinsics_without_marker_break_analysis
    (fs : gmap string (list string)) (device_name : string)
    (params : CameraParams) (left_lines : list string) :
  snd (load_camera_parameters py_float fs device_name) = Some params ->
  fs !! (if path_exists fs (left_qualified device_name)
         then left_qualified device_name else left_base) = Some left_lines ->
  Forall (fun line => contains "intrinsic:" line = false) left_lines ->
  left_matrix params = []
  /\ analyze_depth_factors np_sqrt RQDecomp3x3 params = Raise IndexError
  /\ (device_name = "" ->
      main py_float np_sqrt RQDecomp3x3 fs = Raise IndexError).
Proof.
  intros Hload Hfile Hall.
  destruct (load_camera_parameters_success py_float fs device_name params
              Hload) as (ll & _ & _ & Hl & _ & _ & Hparse & _ & _).
  rewrite Hfile in Hl. injection Hl as <-.
  unfold parse_intrinsics in Hparse.
  destruct (parse_intrinsics_lines py_float left_lines false false [] [])
    as [[m d]|e] eqn:Hlines; [| discriminate Hparse].
  cbn [mbind result_bind fst snd] in Hparse. injection Hparse as Hm _.
  apply (parse_intrinsics_lines_no_marker _ _ _ _ _ _ Hall) in Hlines.
  subst m.
  assert (Hraise : analyze_depth_factors np_sqrt RQDecomp3x3 params
                   = Raise IndexError)
    by (unfold analyze_depth_factors; rewrite <- Hm; reflexivity).
  split; [symmetry; exact Hm |]. split; [exact Hraise |].
  intros ->. unfold main. rewrite Hload, Hraise. reflexivity.
Qed.

(** A line holding [distortion:] ends whatever was being read and starts
    the distortion coefficients. *)
Lemma parse_intrinsics_lines_app (pre rest : list string) (marker : string)
    (reading_intrinsic reading_distortion : bool) (m : Matrix) (d : list Q) :
  contains "intrinsic:" marker = false ->
  contains "distortion:" marker = true ->
  parse_intrinsics_lines py_float (pre ++ marker :: rest)
                         reading_intrinsic reading_distortion m d
  = r ← parse_intrinsics_lines py_float pre
                               reading_intrinsic reading_distortion m d;
    parse_intrinsics_lines py_float rest false true (fst r) (snd r).
Proof.
  intros Hi Hd. revert reading_intrinsic reading_distortion m d.
  induction pre as [|line pre IH]; intros ri rd m d; cbn.
  - rewrite Hi, Hd. reflexivity.
  - destruct (contains "intrinsic:" line); [apply IH |].
    destruct (contains "distortion:" line); [apply IH |].
    destruct ri.
    + destruct (mapM py_float (py_split line)) as [row|e];
        cbn [mbind result_bind]; [apply IH | reflexivity].
    + destruct rd; [| apply IH].
      destruct (mapM py_float (py_split line)) as [row|e];
        cbn [mbind result_bind]; [apply IH | reflexivity].
Qed.

(** X20. Every line after the one holding [distortion:] replaces the
    coefficients read so far, so only the last line counts: of two lines
    after the marker the second alone gives the distortion, and a blank
    last line leaves no coefficient at all. *)
Theorem last_distortion_line_wins (pre : list string)
    (marker line1 line2 : string) (m : Matrix) (d row1 : list Q) :
  contains "intrinsic:" marker = false ->
  contains "distortion:" marker = true ->
  contains "intrinsic:" line1 = false ->
  contains "distortion:" line1 = false ->
  contains "intrinsic:" line2 = false ->
  contains "distortion:" line2 = false ->
  parse_intrinsics_lines py_float pre false false [] [] = Ok (m, d) ->
  mapM py_float (py_split line1) = Ok row1 ->
  parse_intrinsics py_float (pre ++ [marker; line1; line2])
  = row2 ← mapM py_float (py_split line2); Ok (m, [row2]).
Proof.
  intros Hmi Hmd H1i H1d H2i H2d Hpre Hrow1.
  unfold parse_intrinsics.
  rewrite (parse_intrinsics_lines_app pre [line1; line2] marker _ _ _ _
             Hmi Hmd), Hpre.
  cbn [mbind result_bind fst snd parse_intrinsics_lines].
  rewrite H1i, H1d, Hrow1. cbn [mbind result_bind].
  rewrite H2i, H2d.
  destruct (mapM py_float (py_split line2)) as [row2|e]; reflexivity.
Qed.

End Files.

Lemma shared_extrinsics_no_mounting_advice_witness :
  exists lines : list DeviceLine,
    compare_devices float_of_digits isqrt (fun _ => Ok (0, 0, 0))
                    fs_example "" "_device2" = Ok lines
    /\ In RecalibrateFocal lines
    /\ ~ In CheckMountingDistance lines.
Proof.
  destruct (compare_devices float_of_digits isqrt (fun _ => Ok (0, 0, 0))
              fs_example "" "_device2") as [lines|e] eqn:Hrun;
    [| vm_compute in Hrun; discriminate Hrun].
  exists lines. split; [reflexivity |]. split.
  - vm_compute in Hrun. injection Hrun as <-. cbn. tauto.
  - apply (shared_extrinsics_no_mounting_advice float_of_digits isqrt
             (fun _ => Ok (0, 0, 0)) fs_example "_device2" lines);
      [vm_compute; reflexivity | exact Hrun].
Defined.

Lemma intrinsics_without_marker_break_analysis_witness :
  exists params : CameraParams,
    snd (load_camera_parameters float_of_digits fs_markerless "")
    = Some params
    /\ left_matrix params = []
    /\ analyze_depth_factors isqrt (fun _ => Ok (0, 0, 0)) params
       = Raise IndexError
    /\ main float_of_digits isqrt (fun _ => Ok (0, 0, 0)) fs_markerless
       = Raise IndexError.
Proof.
  destruct (snd (load_camera_parameters float_of_digits fs_markerless ""))
    as [params|] eqn:Hload; [| vm_compute in Hload; discriminate Hload].
  destruct (intrinsics_without_marker_break_analysis float_of_digits isqrt
              (fun _ => Ok (0, 0, 0)) fs_markerless "" params
              ["1000 0 640"; "0 1000 360"; "0 0 1";
               "distortion:"; "0 0 0 0 0"] Hload)
    as (Hm & Hraise & Hmain).
  - vm_compute. reflexivity.
  - repeat constructor.
  - exists params. auto.
Defined.

Lemma last_distortion_line_wins_witness :
  parse_intrinsics float_of_digits
    (matrix_lines ++ ["distortion:"; "0 0 0 0 0"; blank_line])
  = Ok ([[1000; 0; 640]; [0; 1000; 360]; [0; 0; 1]], [[]]).
Proof.
  apply (last_distortion_line_wins float_of_digits matrix_lines
           "distortion:" "0 0 0 0 0" blank_line
           [[1000; 0; 640]; [0; 1000; 360]; [0; 0; 1]] [] [0; 0; 0; 0; 0]);
    vm_compute; reflexivity.
Defined.

(** ** The simulation *)




End DepthAnalysisFacts.
